(** * RERA project scraper (scraper.py): model and verified properties

    The scraper drives one browser page through a list view and a detail
    view and accumulates up to six records.  The page is not under the
    program's control, so it is modelled as a [World]: what the page would
    answer at each awaited operation; the file system is modelled as a
    [Disk]: which of the operations on files fail.  The Python code is
    embedded in a state-and-exception monad over the program's own state
    (clock, log, scratch files, output file). *)

From Stdlib Require Import String Ascii List Bool Arith NArith Lia.
Import ListNotations.
Open Scope string_scope.

(** ** Python strings

    A [str] is a sequence of code points; the model keeps the code points
    below 256. *)

Module PyStr.

(** [str.isspace] on one code point. *)
Definition is_space (c : ascii) : bool :=
  let n := nat_of_ascii c in
  (((9 <=? n) && (n <=? 13)) || ((28 <=? n) && (n <=? 32))
   || (n =? 133) || (n =? 160))%nat.

Fixpoint lstrip (s : string) : string :=
  match s with
  | EmptyString => EmptyString
  | String c s' => if is_space c then lstrip s' else s
  end.

Fixpoint rstrip (s : string) : string :=
  match s with
  | EmptyString => EmptyString
  | String c s' =>
      match rstrip s' with
      | EmptyString => if is_space c then EmptyString else String c EmptyString
      | r => String c r
      end
  end.

(** [s.strip()] *)
Definition strip (s : string) : string := rstrip (lstrip s).

Definition lower_char (c : ascii) : ascii :=
  let n := nat_of_ascii c in
  if (((65 <=? n) && (n <=? 90))
      || ((192 <=? n) && (n <=? 222) && negb (n =? 215)))%nat
  then ascii_of_nat (n + 32) else c.

(** [s.lower()] *)
Fixpoint lower (s : string) : string :=
  match s with
  | EmptyString => EmptyString
  | String c s' => String (lower_char c) (lower s')
  end.

(** [sub in s] *)
Fixpoint contains (sub s : string) : bool :=
  prefix sub s ||
  match s with
  | EmptyString => false
  | String _ s' => contains sub s'
  end.

(** Truth value of a [str]. *)
Definition truthy (s : string) : bool := negb (s =? "").

End PyStr.

(** ** Native dialogs: [handle_dialog] *)

Inductive dialog_action := Accept | Dismiss.

Record Dialog := { dialog_type : string; dialog_message : string }.

(** What one call of the handler does: the dialog method it awaits and,
    when that method succeeds, the lines it logs after the two opening
    lines.  An error of the method is logged and goes no further. *)
Record Handled := { action : dialog_action; logged : list string }.

Definition handle_dialog (dialog : Dialog) : Handled :=
  if (dialog_type dialog =? "alert") || (dialog_type dialog =? "confirm")
     || (dialog_type dialog =? "prompt")
  then {| action := Accept;
          logged := ["Accepted dialog: " ++ dialog_message dialog] |}
  else if dialog_type dialog =? "beforeunload"
  then {| action := Accept; logged := ["Accepted beforeunload dialog."] |}
  else if PyStr.contains "location" (PyStr.lower (dialog_message dialog))
  then {| action := Accept;
          logged := ["Accepted location permission dialog.";
                     "Dismissed dialog: " ++ dialog_message dialog] |}
  else {| action := Dismiss;
          logged := ["Dismissed dialog: " ++ dialog_message dialog] |}.

(** ** The page as the program observes it *)

Inductive exn :=
| PlaywrightError   (* playwright.async_api.Error *)
| TimeoutError      (* its subclass raised by bounded waits *)
| AttributeError
| IndexError
| ValueError
| OSError.          (* raised by the file system *)

(** A [div.card] of the list view: the text contents of its [h5]
    elements and the number of its "View Details" buttons. *)
Record Card := {
  h5s : list (option string);
  view_details_btns : nat
}.

(** The answers of the page at one awaited operation.  A locator is
    modelled by the text contents of the elements it matches, in DOM
    order; [fault] makes the operation awaited at that moment raise, and
    [latency] is the time in milliseconds that it takes. *)
Record Dom := {
  cards : list Card;
  ok_button_visible : bool;
  spinner_hidden : bool;
  project_name_strong : list (option string);
  rera_regd_no_strong : list (option string);
  promoter_card_body : list string;
  company_name_strong : list (option string);
  propietory_name_strong : list (option string);
  registered_address_strong : list (option string);
  permanent_address_strong : list (option string);
  gst_no_strong : list (option string);
  fault : option exn;
  latency : N
}.

(** The page over a run: its answers at the first, second, ... awaited
    operation. *)
Definition World := nat -> Dom.

Definition locator := Dom -> list (option string).

(** ** The program's state and effects *)

(** A file of the working directory whose name ends in .html or .png:
    the two kinds the run writes, and any other. *)
Inductive scratch_file :=
| Screenshot
| PromoterHtml (project_number : nat) (html : string)
| OtherFile (name : string).

(** Two entries with the same file name. *)
Definition same_file (f g : scratch_file) : bool :=
  match f, g with
  | Screenshot, Screenshot => true
  | PromoterHtml n _, PromoterHtml m _ => (n =? m)%nat
  | OtherFile a, OtherFile b => (a =? b)%string
  | _, _ => false
  end.

Inductive event :=
| NoMoreProjects                               (* warning, line 114 *)
| NavigationError (project_name : string) (e : exn)   (* error, line 159 *)
| SkippingBlank (project_name : string)        (* warning, line 302 *)
| ExtractedData (project_name : string)        (* info, line 308 *)
| CardNotFound (project_name : string)         (* warning, line 314 *)
| ResultsWritten                               (* info, line 328 *)
| NoDataToWrite                                (* info, line 330 *)
| Deleted (file : scratch_file)                (* info, line 340 *)
| CouldNotDelete (file : scratch_file)         (* warning, line 342 *)
| MainError (e : exn).                         (* error, lines 345, 347 *)

(** [tick] counts the operations awaited on the page so far, [now] is the
    wall clock in milliseconds, [sleeps] counts the calls of
    [asyncio.sleep]; [scratch] lists the .html and .png files of the
    working directory; [csv_file] is the content of projects_output.csv,
    a header row followed by the data rows, when the file exists. *)
Record Sys := {
  tick : nat;
  now : N;
  sleeps : nat;
  log : list event;
  scratch : list scratch_file;
  csv_file : option (list (list string))
}.

Inductive result (A : Type) :=
| Ok (a : A)
| Raise (e : exn)
| OutOfFuel.
Arguments Ok {A} a.
Arguments Raise {A} e.
Arguments OutOfFuel {A}.

Definition M (A : Type) := Sys -> result A * Sys.

Definition ret {A} (a : A) : M A := fun s => (Ok a, s).

Definition bind {A B} (m : M A) (k : A -> M B) : M B :=
  fun s =>
    match m s with
    | (Ok a, s') => k a s'
    | (Raise e, s') => (Raise e, s')
    | (OutOfFuel, s') => (OutOfFuel, s')
    end.

Definition raise {A} (e : exn) : M A := fun s => (Raise e, s).

Definition out_of_fuel {A} : M A := fun s => (OutOfFuel, s).

(** [try: m except Exception as e: h e] *)
Definition try_except {A} (m : M A) (h : exn -> M A) : M A :=
  fun s =>
    match m s with
    | (Raise e, s') => h e s'
    | r => r
    end.

(** [async with ... : m]: the exit of the context manager is awaited
    after the body, also when the body raises; the error of the body
    goes on unless the exit raises one of its own. *)
Definition with_exit {A} (m : M A) (exit : M unit) : M A :=
  fun s =>
    match m s with
    | (Ok a, s1) =>
        match exit s1 with
        | (Ok _, s2) => (Ok a, s2)
        | (Raise e, s2) => (Raise e, s2)
        | (OutOfFuel, s2) => (OutOfFuel, s2)
        end
    | (Raise e, s1) =>
        match exit s1 with
        | (Ok _, s2) => (Raise e, s2)
        | (Raise e', s2) => (Raise e', s2)
        | (OutOfFuel, s2) => (OutOfFuel, s2)
        end
    | (OutOfFuel, s1) => (OutOfFuel, s1)
    end.

Declare Scope monad_scope.
Delimit Scope monad_scope with monad.
Notation "x <- m ;; k" := (bind m (fun x => k))
  (at level 61, m at next level, right associativity) : monad_scope.
Notation "' pat <- m ;; k" := (bind m (fun x => match x with pat => k end))
  (at level 61, pat pattern, m at next level, right associativity) : monad_scope.
Notation "m ;; k" := (bind m (fun _ => k))
  (at level 61, right associativity) : monad_scope.
Open Scope monad_scope.

Definition set_clock (t : nat) (n : N) (z : nat) (s : Sys) : Sys :=
  {| tick := t; now := n; sleeps := z; log := log s; scratch := scratch s;
     csv_file := csv_file s |}.

Definition logging (e : event) : M unit :=
  fun s => (Ok tt, {| tick := tick s; now := now s; sleeps := sleeps s;
                      log := log s ++ [e]; scratch := scratch s;
                      csv_file := csv_file s |}).

Definition write_scratch (f : scratch_file) : M unit :=
  fun s => (Ok tt, {| tick := tick s; now := now s; sleeps := sleeps s;
                      log := log s; scratch := scratch s ++ [f];
                      csv_file := csv_file s |}).

(** [os.listdir('.')], filtered on the two endings (lines 333-336). *)
Definition list_scratch : M (list scratch_file) :=
  fun s => (Ok (scratch s), s).

(** The effect of [os.remove(f)] when it succeeds. *)
Definition unlink (f : scratch_file) : M unit :=
  fun s => (Ok tt, {| tick := tick s; now := now s; sleeps := sleeps s;
                      log := log s;
                      scratch := filter (fun g => negb (same_file f g))
                                   (scratch s);
                      csv_file := csv_file s |}).

Definition set_csv (t : option (list (list string))) : M unit :=
  fun s => (Ok tt, {| tick := tick s; now := now s; sleeps := sleeps s;
                      log := log s; scratch := scratch s; csv_file := t |}).

Definition get_csv : M (option (list (list string))) :=
  fun s => (Ok (csv_file s), s).

(** [time.time()], in milliseconds. *)
Definition time_time : M N := fun s => (Ok (now s), s).

(** [await asyncio.sleep(ms / 1000)] *)
Definition asyncio_sleep (ms : N) : M unit :=
  fun s => (Ok tt, set_clock (tick s) (now s + ms) (S (sleeps s)) s).

(** ** Records

    A record is a Python [dict] from column name to text ([None] when
    [text_content()] gave none); the keys keep their insertion order. *)

Definition pydict := list (string * option string).

(** [d[k] = v] *)
Fixpoint dict_set (k : string) (v : option string) (d : pydict) : pydict :=
  match d with
  | [] => [(k, v)]
  | (k', v') :: d' =>
      if k' =? k then (k, v) :: d' else (k', v') :: dict_set k v d'
  end.

(** [d.get(k)] *)
Fixpoint dict_get (k : string) (d : pydict) : option (option string) :=
  match d with
  | [] => None
  | (k', v') :: d' => if k' =? k then Some v' else dict_get k d'
  end.

Definition keys (d : pydict) : list string := map fst d.

(** [RunState]: the local variables of the orchestration loop. *)
Record Loop := {
  project_names : list string;
  project_names_index : nat;
  project_data : list pydict
}.

(** How one pass of the [while] loop ends: at its last line, or at the
    [break] of line 115. *)
Inductive control :=
| Continue (st : Loop)
| Break (st : Loop).

(** Whether the [while] loop has been left, or is still going when the
    passes granted to the model are used up. *)
Inductive status := Exited | Running.

(** The target count of line 96. *)
Definition target_count : nat := 6.

(** The file system during the output and the clean-up: which of the
    operations of lines 324-327 and 334-339 raise. *)
Record Disk := {
  open_csv : option exn;                 (* open(csv_file, "w") *)
  write_row : nat -> option exn;         (* writing line [n], 0 the header *)
  listdir : option exn;                  (* os.listdir('.') *)
  remove : scratch_file -> option exn    (* os.remove(f) *)
}.

Section Scraper.

Variable w : World.
Variable disk : Disk.

(** One awaited page operation: it takes the page's answer at the
    current tick, or raises the fault the page has there. *)
Definition await {A} (op : Dom -> result A) : M A :=
  fun s =>
    let d := w (tick s) in
    let s' := set_clock (S (tick s)) (now s + latency d) (sleeps s) s in
    match fault d with
    | Some e => (Raise e, s')
    | None => (op d, s')
    end.

(** Navigation and waits whose only outcome is success or an error. *)
Definition page_op : M unit := await (fun _ => Ok tt).

(** [await page.wait_for_timeout(ms)] *)
Definition wait_for_timeout (ms : N) : M unit :=
  page_op ;;
  fun s => (Ok tt, set_clock (tick s) (now s + ms) (sleeps s) s).

(** [await loc.text_content()] on a strict locator. *)
Definition text_content (loc : locator) : M (option string) :=
  await (fun d => match loc d with
                  | [] => Raise TimeoutError
                  | [t] => Ok t
                  | _ => Raise PlaywrightError
                  end).

(** [await loc.wait_for(state="visible", timeout=...)] *)
Definition wait_for_visible {A} (loc : Dom -> list A) : M unit :=
  await (fun d => match loc d with
                  | [] => Raise TimeoutError
                  | [_] => Ok tt
                  | _ => Raise PlaywrightError
                  end).

(** [await loc.count()] *)
Definition count (loc : locator) : M nat :=
  await (fun d => Ok (length (loc d))).

(** [await loc.first.text_content()] *)
Definition first_text_content (loc : locator) : M (option string) :=
  await (fun d => match loc d with
                  | [] => Raise TimeoutError
                  | t :: _ => Ok t
                  end).

(** *** Field resolution on the detail view *)

(** [text == '--'] for the value of [text_content()]. *)
Definition is_placeholder (text : option string) : bool :=
  match text with
  | Some t => t =? "--"
  | None => false
  end.

(** Number of iterations granted to a polling loop; the loops stop on
    the clock long before (see [resolve_field_returns] and its
    companions below). *)
Definition poll_fuel : nat := 200.

(** Lines 185-186 (and 195-196): sleep while the text is the
    placeholder and fewer than 60 seconds have passed. *)
Fixpoint wait_while_placeholder (fuel : nat) (loc : locator)
    (start_time : N) : M unit :=
  match fuel with
  | O => out_of_fuel
  | S fuel' =>
      text <- text_content loc ;;
      if is_placeholder text then
        t <- time_time ;;
        if (t - start_time <? 60000)%N then
          asyncio_sleep 500 ;;
          wait_while_placeholder fuel' loc start_time
        else ret tt
      else ret tt
  end.

(** Lines 181-187 (Project Name) and 192-197 (RERA Regd. No.). *)
Definition resolve_field (loc : locator) : M (option string) :=
  wait_for_visible loc ;;
  start_time <- time_time ;;
  wait_while_placeholder poll_fuel loc start_time ;;
  text_content loc.

(** [text and text.strip() != '--'] *)
Definition has_value (text : option string) : bool :=
  match text with
  | Some t => PyStr.truthy t && negb (PyStr.strip t =? "--")
  | None => false
  end.

(** Lines 234-238 (and 239-243, 261-270): one source of a field; the
    result is the text that ends the loop, if the source has one. *)
Definition probe (loc : locator) : M (option string) :=
  n <- count loc ;;
  if (0 <? n)%nat then
    text <- first_text_content loc ;;
    ret (if has_value text then text else None)
  else ret None.

(** Line 244 (and 271): [count() == 0 and count() == 0]. *)
Definition both_absent (first second : locator) : M bool :=
  n1 <- count first ;;
  if (n1 =? 0)%nat then
    n2 <- count second ;;
    ret (n2 =? 0)%nat
  else ret false.

(** Lines 233-251 (Promoter Name) and 260-278 (Address): the
    [while True] loop over two sources in priority order. *)
Fixpoint poll_sources (fuel : nat) (first second : locator)
    (start_time : N) : M string :=
  match fuel with
  | O => out_of_fuel
  | S fuel' =>
      r1 <- probe first ;;
      match r1 with
      | Some text => ret text
      | None =>
          r2 <- probe second ;;
          match r2 with
          | Some text => ret text
          | None =>
              absent <- both_absent first second ;;
              if absent then ret "--"
              else
                t <- time_time ;;
                if (40000 <? t - start_time)%N then ret "--"
                else
                  asyncio_sleep 500 ;;
                  poll_sources fuel' first second start_time
          end
      end
  end.

Definition resolve_sources (first second : locator) : M string :=
  start_time <- time_time ;;
  poll_sources poll_fuel first second start_time.

(** [text and text.strip() != ''] *)
Definition is_nonblank (text : option string) : bool :=
  match text with
  | Some t => PyStr.truthy t && negb (PyStr.strip t =? "")
  | None => false
  end.

(** Lines 286-294: the loop of the GST No. field. *)
Fixpoint poll_gst (fuel : nat) (start_time : N) : M string :=
  match fuel with
  | O => out_of_fuel
  | S fuel' =>
      n <- count gst_no_strong ;;
      r <- (if (0 <? n)%nat then
              text <- first_text_content gst_no_strong ;;
              ret (if is_nonblank text then text else None)
            else ret None) ;;
      match r with
      | Some text => ret text
      | None =>
          t <- time_time ;;
          if (40000 <? t - start_time)%N then ret "--"
          else
            asyncio_sleep 500 ;;
            poll_gst fuel' start_time
      end
  end.

Definition resolve_gst : M string :=
  start_time <- time_time ;;
  poll_gst poll_fuel start_time.

(** *** The detail view: lines 178-296 *)

Definition inner_html : M string :=
  await (fun d => match promoter_card_body d with
                  | [] => Raise TimeoutError
                  | [h] => Ok h
                  | _ => Raise PlaywrightError
                  end).

(** [await spinner_locator.wait_for(state="hidden", timeout=40000)] *)
Definition wait_for_spinner_hidden : M unit :=
  await (fun d => if spinner_hidden d then Ok tt else Raise TimeoutError).

(** The fields of the detail view, in the order the code reads them;
    the result is [current_project_details] with [promoter_name_text]
    and [address_text]. *)
Definition scrape_detail (project_names_index : nat)
    : M (pydict * string * string) :=
  project_name_text <- resolve_field project_name_strong ;;
  let current_project_details :=
    dict_set "Project Name" project_name_text [] in
  rera_regd_no_text <- resolve_field rera_regd_no_strong ;;
  let current_project_details :=
    dict_set "Rera Regd. No" rera_regd_no_text current_project_details in
  page_op ;;                                   (* promoter_details_tab.click() *)
  try_except wait_for_spinner_hidden (fun _ => ret tt) ;;
  wait_for_visible promoter_card_body ;;
  promoter_details_html <- inner_html ;;
  write_scratch
    (PromoterHtml (project_names_index + 1) promoter_details_html) ;;
  promoter_name_text <-
    resolve_sources company_name_strong propietory_name_strong ;;
  let current_project_details :=
    dict_set "Promoter Name" (Some promoter_name_text)
      current_project_details in
  address_text <-
    resolve_sources registered_address_strong permanent_address_strong ;;
  let current_project_details :=
    dict_set "Address of the Promoter" (Some address_text)
      current_project_details in
  gst_no_text <- resolve_gst ;;
  let current_project_details :=
    dict_set "GST No." (Some gst_no_text) current_project_details in
  ret (current_project_details, promoter_name_text, address_text).

(** Lines 298-308: the completeness check and the append. *)
Definition validate_and_append (project_name : string)
    (current_project_details : pydict)
    (promoter_name_text address_text : string)
    (project_data : list pydict) : M (list pydict) :=
  let promoter_name :=
    if PyStr.truthy promoter_name_text
    then PyStr.strip promoter_name_text else "--" in
  let address :=
    if PyStr.truthy address_text then PyStr.strip address_text else "--" in
  if negb (PyStr.truthy promoter_name) || negb (PyStr.truthy address) then
    logging (SkippingBlank project_name) ;;
    ret project_data
  else
    let current_project_details :=
      dict_set "Promoter Name" (Some promoter_name)
        current_project_details in
    let current_project_details :=
      dict_set "Address of the Promoter" (Some address)
        current_project_details in
    logging (ExtractedData project_name) ;;
    ret (project_data ++ [current_project_details])%list.

(** *** The list view *)

(** The SweetAlert2 modal (lines 57-70, 127-138, 164-175): click OK
    when it is visible, wait until it is hidden, settle; every error is
    swallowed. *)
Definition dismiss_modal (settle : N) : M unit :=
  try_except
    (visible <- await (fun d => Ok (ok_button_visible d)) ;;
     if visible then
       page_op ;;                              (* click() *)
       page_op ;;                              (* wait_for(state="hidden") *)
       wait_for_timeout settle
     else ret tt)
    (fun _ => ret tt).

(** [page.goto] of the list view with its two waits (lines 100-102). *)
Definition goto_project_list : M unit :=
  page_op ;; page_op ;; page_op.

(** Lines 84-87: the stripped text of the first [h5] of a card, [None]
    when the card has no [h5]. *)
Definition card_name (card : Card) : M (option string) :=
  h5 <- await (fun _ => Ok (h5s card)) ;;
  match h5 with
  | [] => ret None
  | h :: _ =>
      text <- await (fun _ => Ok h) ;;
      match text with
      | Some t => ret (Some (PyStr.strip t))
      | None => raise AttributeError
      end
  end.

(** [name and name.lower() != "filter"] *)
Definition is_project_name (name : string) : bool :=
  PyStr.truthy name && negb (PyStr.lower name =? "filter").

(** Lines 83-91: the first six names. *)
Fixpoint collect_top6 (all_cards : list Card) (project_names : list string)
    : M (list string) :=
  match all_cards with
  | [] => ret project_names
  | card :: rest =>
      o <- card_name card ;;
      match o with
      | None => collect_top6 rest project_names
      | Some name =>
          let project_names :=
            if is_project_name name then (project_names ++ [name])%list
            else project_names in
          if (length project_names =? 6)%nat then ret project_names
          else collect_top6 rest project_names
      end
  end.

(** Lines 105-111: all the names of the reloaded list. *)
Fixpoint collect_all (all_cards_new : list Card)
    (project_names_new : list string) : M (list string) :=
  match all_cards_new with
  | [] => ret project_names_new
  | card :: rest =>
      o <- card_name card ;;
      match o with
      | None => collect_all rest project_names_new
      | Some name =>
          collect_all rest
            (if is_project_name name then (project_names_new ++ [name])%list
             else project_names_new)
      end
  end.

(** Lines 100-111: reload the list and enumerate it again. *)
Definition reenumerate : M (list string) :=
  goto_project_list ;;
  all_cards_new <- await (fun d => Ok (cards d)) ;;
  collect_all all_cards_new [].

(** *** Record navigation: lines 145-311 *)

(** The [for card in cards] loop; the result is [found] with the
    cursor and the accumulated records as the loop leaves them. *)
Fixpoint scan_cards (cards : list Card) (project_name : string)
    (project_names_index : nat) (project_data : list pydict)
    : M (bool * nat * list pydict) :=
  match cards with
  | [] => ret (false, project_names_index, project_data)
  | card :: rest =>
      o <- card_name card ;;
      match o with
      | None =>
          scan_cards rest project_name project_names_index project_data
      | Some name =>
          if name =? project_name then
            btns <- await (fun _ => Ok (view_details_btns card)) ;;
            if (btns =? 0)%nat then
              scan_cards rest project_name project_names_index project_data
            else
              nav <- try_except (page_op ;; ret None)
                                (fun e => ret (Some e)) ;;
              match nav with
              | Some e =>
                  logging (NavigationError project_name e) ;;
                  ret (true, project_names_index + 1, project_data)
              | None =>
                  dismiss_modal 2000 ;;
                  ' (current_project_details, promoter_name_text,
                     address_text) <- scrape_detail project_names_index ;;
                  project_data <-
                    validate_and_append project_name
                      current_project_details promoter_name_text
                      address_text project_data ;;
                  ret (true, project_names_index, project_data)
              end
          else
            scan_cards rest project_name project_names_index project_data
      end
  end.

(** *** The orchestration loop: lines 96-316 *)

(** Lines 97-117: [None] stands for the [break]. *)
Definition extend_project_names (st : Loop) : M (option (list string)) :=
  if (length (project_names st) <=? project_names_index st)%nat then
    project_names_new <- reenumerate ;;
    if (length project_names_new <=? project_names_index st)%nat then
      logging NoMoreProjects ;;
      ret None
    else
      ret (Some (project_names st
                 ++ skipn (project_names_index st) project_names_new)%list)
  else ret (Some (project_names st)).

(** One pass of the body of [while len(project_data) < 6]. *)
Definition loop_body (st : Loop) : M control :=
  ext <- extend_project_names st ;;
  match ext with
  | None => ret (Break st)
  | Some names =>
      match nth_error names (project_names_index st) with
      | None => raise IndexError
      | Some project_name =>
          page_op ;;                           (* goto *)
          dismiss_modal 2000 ;;
          page_op ;; page_op ;;                (* the two waits *)
          cards <- await (fun d => Ok (cards d)) ;;
          ' (found, index, data) <-
            scan_cards cards project_name (project_names_index st)
              (project_data st) ;;
          (if negb found then logging (CardNotFound project_name)
           else ret tt) ;;
          ret (Continue {| project_names := names;
                           project_names_index := index + 1;
                           project_data := data |})
      end
  end.

(** The [while] loop, for at most [passes] passes. *)
Fixpoint main_loop (passes : nat) (st : Loop) : M (status * Loop) :=
  if (length (project_data st) <? target_count)%nat then
    match passes with
    | O => ret (Running, st)
    | S passes' =>
        c <- loop_body st ;;
        match c with
        | Break st' => ret (Exited, st')
        | Continue st' => main_loop passes' st'
        end
    end
  else ret (Exited, st).

(** *** Output: lines 321-330 *)

(** [csv.DictWriter._dict_to_list]: a key outside the field names is a
    [ValueError], a missing or [None] value is written empty. *)
Definition dict_to_list (fieldnames : list string) (rowdict : pydict)
    : option (list string) :=
  if forallb (fun k => existsb (String.eqb k) fieldnames) (keys rowdict)
  then Some (map (fun k => match dict_get k rowdict with
                           | Some (Some v) => v
                           | _ => ""
                           end) fieldnames)
  else None.

(** One line of the file; a failing write leaves the lines written
    before it. *)
Definition writerow (n : nat) (row : list string) : M unit :=
  match write_row disk n with
  | Some e => raise e
  | None =>
      t <- get_csv ;;
      match t with
      | Some rows => set_csv (Some (rows ++ [row])%list)
      | None => raise ValueError               (* write to a closed file *)
      end
  end.

(** [writer.writerows], from line [n] of the file on. *)
Fixpoint writerows (n : nat) (fieldnames : list string)
    (rowdicts : list pydict) : M unit :=
  match rowdicts with
  | [] => ret tt
  | rowdict :: rest =>
      match dict_to_list fieldnames rowdict with
      | Some row => writerow n row ;; writerows (S n) fieldnames rest
      | None => raise ValueError
      end
  end.

(** Lines 322-330.  Opening the file for writing empties it; an error
    of a write leaves the lines written before it and ends the run. *)
Definition write_results (project_data : list pydict) : M unit :=
  match project_data with
  | [] => logging NoDataToWrite
  | first :: _ =>
      let fieldnames := keys first in
      match open_csv disk with
      | Some e => raise e                      (* the file is not opened *)
      | None =>
          set_csv (Some []) ;;                 (* open(csv_file, "w") *)
          writerow 0 fieldnames ;;             (* writeheader() *)
          writerows 1 fieldnames project_data ;;
          logging ResultsWritten
      end
  end.

(** *** Clean-up: lines 332-342 *)

(** [os.remove(f)] *)
Definition os_remove (f : scratch_file) : M unit :=
  match remove disk f with
  | Some e => raise e
  | None => unlink f
  end.

(** Lines 337-342: the [for f in files_to_delete] loop; a file that
    cannot be deleted is reported and left where it is. *)
Fixpoint remove_files (files : list scratch_file) : M unit :=
  match files with
  | [] => ret tt
  | f :: rest =>
      try_except (os_remove f ;; logging (Deleted f))
                 (fun _ => logging (CouldNotDelete f)) ;;
      remove_files rest
  end.

(** Lines 333-342.  The listing is outside the [try] of the loop. *)
Definition remove_scratch : M unit :=
  match listdir disk with
  | Some e => raise e
  | None =>
      files_to_delete <- list_scratch ;;
      remove_files files_to_delete
  end.

(** *** [main] *)

(** Lines 41-342, inside the [try], after the launch. *)
Definition run (passes : nat) : M unit :=
  page_op ;;                                   (* browser.new_page() *)
  goto_project_list ;;
  dismiss_modal 10000 ;;
  page_op ;;                                   (* page.screenshot *)
  write_scratch Screenshot ;;
  page_op ;;                                   (* wait_for_selector *)
  all_cards <- await (fun d => Ok (cards d)) ;;
  names <- collect_top6 all_cards [] ;;
  ' (st, final) <-
    main_loop passes {| project_names := names;
                        project_names_index := 0;
                        project_data := [] |} ;;
  match st with
  | Running => out_of_fuel
  | Exited =>
      write_results (project_data final) ;;
      remove_scratch
  end.

(** Lines 38-351: the [try] with its handlers and its [finally]. *)
Definition guarded_run (passes : nat) : M unit :=
  launched <-
    try_except
      (page_op ;;                              (* chromium.launch *)
       try_except (run passes) (fun e => logging (MainError e)) ;;
       ret true)
      (fun e => logging (MainError e) ;; ret false) ;;
  if launched then page_op                     (* browser.close() *)
  else ret tt.

(** Line 37: entering [async_playwright()] is awaited before the [try],
    leaving it after the [finally]. *)
Definition main (passes : nat) : M unit :=
  page_op ;;                                   (* __aenter__ *)
  with_exit (guarded_run passes) page_op.      (* __aexit__ *)

End Scraper.

(** ** Vocabulary of the properties *)

(** A message mentions a word, whatever the case of its letters. *)
Definition mentions (word message : string) : Prop :=
  exists before found after,
    message = before ++ found ++ after /\ PyStr.lower found = word.

(** The dialog kinds accepted whatever they say. *)
Definition plain_kinds : list string :=
  ["alert"; "confirm"; "prompt"; "beforeunload"].

(** The state after the operation awaited in state [s]. *)
Definition next (w : World) (s : Sys) : Sys :=
  set_clock (S (tick s)) (now s + latency (w (tick s))) (sleeps s) s.

(** A weakest precondition: [wp m Q s] says that running [m] from [s]
    ends in a result and a state that satisfy [Q]. *)
Definition wp {A} (m : M A) (Q : result A -> Sys -> Prop) (s : Sys) : Prop :=
  Q (fst (m s)) (snd (m s)).

(** [m] returns normally, and [Q] holds of its value and final state. *)
Definition returns {A} (Q : A -> Sys -> Prop) (r : result A) (s : Sys) : Prop :=
  match r with
  | Ok a => Q a s
  | _ => False
  end.

(** [Q] holds whenever [m] returns normally. *)
Definition if_returns {A} (Q : A -> Sys -> Prop) (r : result A) (s : Sys)
    : Prop :=
  match r with
  | Ok a => Q a s
  | _ => True
  end.

(** No awaited operation fails with an automation error. *)
Definition quiet (w : World) : Prop := forall t, fault (w t) = None.

(** During the [n] operations awaited from state [s] on, the page
    answers as the snapshot [d]. *)
Definition shows (w : World) (s : Sys) (n : nat) (d : Dom) : Prop :=
  forall t, tick s <= t < tick s + n -> w t = d.

(** The locator matches exactly one element at all times. *)
Definition attached (w : World) (loc : locator) : Prop :=
  forall t, exists text, loc (w t) = [text].

(** The locator matches at all times, or never. *)
Definition steady (w : World) (loc : locator) : Prop :=
  (forall t, loc (w t) = []) \/ (forall t, loc (w t) <> []).

(** The text with which a source ends the loop, if it has one:
    the source is present and its first match has a value. *)
Definition source_value (texts : list (option string)) : option string :=
  match texts with
  | text :: _ => if has_value text then text else None
  | [] => None
  end.

(** The first source, in priority order, that is present with a value. *)
Definition winner (first second : locator) (d : Dom) : option string :=
  match source_value (first d) with
  | Some v => Some v
  | None => source_value (second d)
  end.

(** ** Records of the output *)

(** The columns, in the order in which the code fills a record. *)
Definition columns : list string :=
  ["Project Name"; "Rera Regd. No"; "Promoter Name";
   "Address of the Promoter"; "GST No."].

Definition record_of (project_name rera_regd_no : option string)
    (promoter_name address gst_no : string) : pydict :=
  [("Project Name", project_name); ("Rera Regd. No", rera_regd_no);
   ("Promoter Name", Some promoter_name);
   ("Address of the Promoter", Some address); ("GST No.", Some gst_no)].

(** Promoter Name and Address are present and not the empty string. *)
Definition complete (r : pydict) : Prop :=
  exists promoter_name address,
    dict_get "Promoter Name" r = Some (Some promoter_name)
    /\ promoter_name <> ""
    /\ dict_get "Address of the Promoter" r = Some (Some address)
    /\ address <> "".

(** The shape of every record the loop appends. *)
Definition accumulated (r : pydict) : Prop :=
  exists project_name rera_regd_no promoter_name address gst_no,
    r = record_of project_name rera_regd_no promoter_name address gst_no
    /\ promoter_name <> "" /\ address <> "".

(** The row of a record in the output table. *)
Definition row_of (r : pydict) : list string :=
  map (fun k => match dict_get k r with
                | Some (Some v) => v
                | _ => ""
                end) columns.

(** The loop state of line 94-95. *)
Definition start (names : list string) : Loop :=
  {| project_names := names; project_names_index := 0; project_data := [] |}.

(** The accumulated sequence [data'] is [data] with at most one more
    record. *)
Definition one_more (data data' : list pydict) : Prop :=
  data' = data \/ exists r, data' = (data ++ [r])%list /\ accumulated r.

(** The invariant of the loop: at most [target_count] records, each of
    the shape [accumulated]. *)
Definition loop_inv (st : Loop) : Prop :=
  Forall accumulated (project_data st)
  /\ length (project_data st) <= target_count.

(** ** Example pages *)

Definition card (name : string) : Card :=
  {| h5s := [Some name]; view_details_btns := 1 |}.

(** A list of three projects behind the "Filter" card; the same snapshot
    answers the detail view of a project run by a proprietor. *)
Definition acme_page : Dom :=
  {| cards := [card "Filter"; card "Alpha Residency"; card "Beta Towers";
               card "Gamma Heights"];
     ok_button_visible := false;
     spinner_hidden := true;
     project_name_strong := [Some "Alpha Residency"];
     rera_regd_no_strong := [Some "RP/19/2024/01001"];
     promoter_card_body := ["<div class='ms-3'>"];
     company_name_strong := [];
     propietory_name_strong := [Some "Acme Builders"];
     registered_address_strong := [];
     permanent_address_strong := [Some "Plot 7, Bhubaneswar"];
     gst_no_strong := [Some "--"];
     fault := None;
     latency := 100 |}.

(** A detail view on which nothing has been rendered yet. *)
Definition loading_page : Dom :=
  {| cards := [];
     ok_button_visible := false;
     spinner_hidden := true;
     project_name_strong := [Some "--"];
     rera_regd_no_strong := [Some "--"];
     promoter_card_body := ["<div class='ms-3'>"];
     company_name_strong := [];
     propietory_name_strong := [];
     registered_address_strong := [];
     permanent_address_strong := [];
     gst_no_strong := [];
     fault := None;
     latency := 100 |}.

(** A page that never changes. *)
Definition still (d : Dom) : World := fun _ => d.

Definition fresh : Sys :=
  {| tick := 0; now := 0; sleeps := 0; log := []; scratch := [];
     csv_file := None |}.

(** The snapshot [d], on which the awaited operation fails with [e]. *)
Definition failing (e : exn) (d : Dom) : Dom :=
  {| cards := cards d;
     ok_button_visible := ok_button_visible d;
     spinner_hidden := spinner_hidden d;
     project_name_strong := project_name_strong d;
     rera_regd_no_strong := rera_regd_no_strong d;
     promoter_card_body := promoter_card_body d;
     company_name_strong := company_name_strong d;
     propietory_name_strong := propietory_name_strong d;
     registered_address_strong := registered_address_strong d;
     permanent_address_strong := permanent_address_strong d;
     gst_no_strong := gst_no_strong d;
     fault := Some e;
     latency := latency d |}.

(** The page of [acme_page] on which the eleventh awaited operation, the
    click on "View Details" of the first project, times out. *)
Definition click_times_out : World :=
  fun t => if (t =? 10)%nat then failing TimeoutError acme_page else acme_page.

(** ** Vocabulary of the further properties *)

(** The loop never ran out of the iterations granted by the model. *)
Definition in_time {A} (r : result A) : Prop := r <> OutOfFuel.

(** The polling loops of the model are bounded by the clock: the result
    is not [OutOfFuel] and at most [n] sleeps were added. *)
Definition slept_at_most {A} (n : nat) (s : Sys) (r : result A) (s' : Sys)
    : Prop :=
  in_time r /\ sleeps s <= sleeps s' <= sleeps s + n.

(** An operation that neither sleeps nor runs out of fuel, and lets the
    clock move forward only. *)
Definition calm {A} (m : M A) : Prop :=
  forall s, in_time (fst (m s))
            /\ sleeps (snd (m s)) = sleeps s
            /\ (now s <= now (snd (m s)))%N.

(** The snapshot [d] answered without delay. *)
Definition instant (d : Dom) : Dom :=
  {| cards := cards d;
     ok_button_visible := ok_button_visible d;
     spinner_hidden := spinner_hidden d;
     project_name_strong := project_name_strong d;
     rera_regd_no_strong := rera_regd_no_strong d;
     promoter_card_body := promoter_card_body d;
     company_name_strong := company_name_strong d;
     propietory_name_strong := propietory_name_strong d;
     registered_address_strong := registered_address_strong d;
     permanent_address_strong := permanent_address_strong d;
     gst_no_strong := gst_no_strong d;
     fault := fault d;
     latency := 0 |}.

(** A text without white space at either end: [s.strip() == s]. *)
Definition trimmed (s : string) : Prop := PyStr.strip s = s.

(** The [text_content()] of the first [h5] of the card, if it has one,
    is a string. *)
Definition titled (card : Card) : Prop :=
  match h5s card with
  | None :: _ => False
  | _ => True
  end.

(** The name a card contributes to an enumeration of the list. *)
Definition listed_name (card : Card) : list string :=
  match h5s card with
  | Some t :: _ =>
      if is_project_name (PyStr.strip t) then [PyStr.strip t] else []
  | _ => []
  end.

(** The names of a list of cards, in DOM order. *)
Definition list_names (cards : list Card) : list string :=
  flat_map listed_name cards.

(** What every enumerated name satisfies: it passed the test of line
    88 and is trimmed. *)
Definition enumerated (name : string) : Prop :=
  is_project_name name = true /\ trimmed name.

(** An operation that leaves the output file as it is. *)
Definition keeps_csv {A} (m : M A) : Prop :=
  forall s, csv_file (snd (m s)) = csv_file s.

(** A record as the loop appends it: the five columns in order, Promoter
    Name and Address trimmed and not empty, GST No. not blank. *)
Definition tidy (r : pydict) : Prop :=
  exists project_name rera_regd_no promoter_name address gst_no,
    r = record_of project_name rera_regd_no promoter_name address gst_no
    /\ promoter_name <> "" /\ trimmed promoter_name
    /\ address <> "" /\ trimmed address
    /\ gst_no <> "" /\ PyStr.strip gst_no <> "".

(** The page of [acme_page] on which the third operation awaited by
    [main], [browser.new_page()], fails. *)
Definition no_new_page : World :=
  fun t => if (t =? 2)%nat then failing PlaywrightError acme_page
           else acme_page.

(** The page of [acme_page] on which the wait for the Project Name of
    the second candidate times out, in a run started at tick [t0]. *)
Definition second_detail_times_out (t0 : nat) : World :=
  fun t => if (t =? t0 + 63)%nat then failing TimeoutError acme_page
           else acme_page.

(** The trimmed text of the first heading of a card. *)
Definition card_title (card : Card) : option string :=
  match h5s card with
  | Some t :: _ => Some (PyStr.strip t)
  | _ => None
  end.

(** A card that the scan for [name] passes over: it has another title,
    or no "View Details" button. *)
Definition passed_over (name : string) (card : Card) : Prop :=
  card_title card <> Some name \/ view_details_btns card = 0.

(** The list of [acme_page] without the card of "Beta Towers". *)
Definition beta_gone : Dom :=
  {| cards := [card "Filter"; card "Alpha Residency"; card "Gamma Heights"];
     ok_button_visible := false;
     spinner_hidden := true;
     project_name_strong := project_name_strong acme_page;
     rera_regd_no_strong := rera_regd_no_strong acme_page;
     promoter_card_body := promoter_card_body acme_page;
     company_name_strong := company_name_strong acme_page;
     propietory_name_strong := propietory_name_strong acme_page;
     registered_address_strong := registered_address_strong acme_page;
     permanent_address_strong := permanent_address_strong acme_page;
     gst_no_strong := gst_no_strong acme_page;
     fault := None;
     latency := 100 |}.

(** A promoter tab whose Company Name stays on the placeholder. *)
Definition company_pending : Dom :=
  {| cards := [];
     ok_button_visible := false;
     spinner_hidden := true;
     project_name_strong := [Some "Alpha Residency"];
     rera_regd_no_strong := [Some "RP/19/2024/01001"];
     promoter_card_body := ["<div class='ms-3'>"];
     company_name_strong := [Some "--"];
     propietory_name_strong := [];
     registered_address_strong := [Some "--"];
     permanent_address_strong := [];
     gst_no_strong := [];
     fault := None;
     latency := 100 |}.

(** ** Vocabulary of the polling cycles *)

(** The page operations of a probe of a source: the count, and the read
    of the first match when there is one. *)
Definition probe_ops (texts : list (option string)) : nat :=
  if (length texts =? 0)%nat then 1 else 2.

(** The page operations of a cycle of a two-source field that ends in a
    sleep: the two probes and the test of line 244. *)
Definition cycle_ops (first second : locator) (d : Dom) : nat :=
  probe_ops (first d) + probe_ops (second d)
  + (if (length (first d) =? 0)%nat then 2 else 1).

(** The duration of such a cycle, sleep included. *)
Definition cycle_ms (ops : nat) (d : Dom) : N :=
  N.of_nat ops * latency d + 500.

(** The text with which the GST No. element ends the loop, if it has
    one: the element is present and its first match is not blank. *)
Definition gst_value (texts : list (option string)) : option string :=
  match texts with
  | text :: _ => if is_nonblank text then text else None
  | [] => None
  end.

(** The page that answers as [d0] to the operations before tick [t] and
    as [d1] from then on. *)
Definition turns (t : nat) (d0 d1 : Dom) : World :=
  fun i => if (i <? t)%nat then d0 else d1.

(** The claim's reading of a source of a two-source field: it counts as
    soon as it is present with a text other than the placeholder. *)
Definition claimed_source_value (texts : list (option string))
    : option string :=
  match texts with
  | Some t :: _ => if (t =? "--")%string then None else Some t
  | _ => None
  end.

Definition claimed_winner (first second : locator) (d : Dom)
    : option string :=
  match claimed_source_value (first d) with
  | Some v => Some v
  | None => claimed_source_value (second d)
  end.

(** The claim's reading of the GST No. element: any text that is not
    empty counts. *)
Definition claimed_gst_value (texts : list (option string))
    : option string :=
  match texts with
  | Some t :: _ => if (t =? "")%string then None else Some t
  | _ => None
  end.

(** A promoter tab whose Company Name is present with an empty text. *)
Definition company_empty : Dom :=
  {| cards := [];
     ok_button_visible := false;
     spinner_hidden := true;
     project_name_strong := [Some "Alpha Residency"];
     rera_regd_no_strong := [Some "RP/19/2024/01001"];
     promoter_card_body := ["<div class='ms-3'>"];
     company_name_strong := [Some ""];
     propietory_name_strong := [];
     registered_address_strong := [];
     permanent_address_strong := [];
     gst_no_strong := [Some " "];
     fault := None;
     latency := 100 |}.

(** ** Vocabulary of the output and of the clean-up *)

(** A file system on which no operation fails. *)
Definition sound_disk : Disk :=
  {| open_csv := None;
     write_row := fun _ => None;
     listdir := None;
     remove := fun _ => None |}.

(** A disk on which the write of line [n] of the output fails. *)
Definition full_at (n : nat) : Disk :=
  {| open_csv := None;
     write_row := fun i => if (i =? n)%nat then Some OSError else None;
     listdir := None;
     remove := fun _ => None |}.

(** A disk on which the screenshot cannot be deleted. *)
Definition locked_screenshot : Disk :=
  {| open_csv := None;
     write_row := fun _ => None;
     listdir := None;
     remove := fun f => match f with
                        | Screenshot => Some OSError
                        | _ => None
                        end |}.

(** The lines of the output file for the records [data]. *)
Definition table (data : list pydict) : list (list string) :=
  columns :: map row_of data.

(** The events of the output step. *)
Definition output_event (e : event) : Prop :=
  e = ResultsWritten \/ e = NoDataToWrite.

(** From [s] to [s'] no event of the output step has been logged. *)
Definition no_output_event (s s' : Sys) : Prop :=
  exists events,
    log s' = (log s ++ events)%list
    /\ Forall (fun e => ~ output_event e) events.

(** From [s] to [s'] the output file has not been touched, no event of
    the output step has been logged and no scratch file has been
    deleted. *)
Definition precedes_output (s s' : Sys) : Prop :=
  csv_file s' = csv_file s
  /\ no_output_event s s'
  /\ exists files, scratch s' = (scratch s ++ files)%list.

(** [m] leaves the output file as it is and logs no event of the output
    step. *)
Definition before_output {A} (m : M A) : Prop :=
  forall s, precedes_output s (snd (m s)).

(** The detail view of a project whose promoter has a GST number. *)
Definition registered_page : Dom :=
  {| cards := cards acme_page;
     ok_button_visible := false;
     spinner_hidden := true;
     project_name_strong := project_name_strong acme_page;
     rera_regd_no_strong := rera_regd_no_strong acme_page;
     promoter_card_body := promoter_card_body acme_page;
     company_name_strong := company_name_strong acme_page;
     propietory_name_strong := propietory_name_strong acme_page;
     registered_address_strong := registered_address_strong acme_page;
     permanent_address_strong := permanent_address_strong acme_page;
     gst_no_strong := [Some "21AAACA1234F1Z5"];
     fault := None;
     latency := 100 |}.

(** The page of [acme_page] on which entering [async_playwright()], the
    first awaited operation, fails. *)
Definition no_playwright : World :=
  fun t => if (t =? 0)%nat then failing PlaywrightError acme_page
           else acme_page.

(** A run that ends before the output step: on an error, or for want of
    granted passes. *)
Definition run_before_output (s : Sys) (r : result unit) (s' : Sys) : Prop :=
  precedes_output s s' /\ r <> Ok tt.

(** A run that leaves the loop: it ends as the output step and the
    clean-up do on the records of the loop. *)
Definition run_reaches_output (w : World) (disk : Disk) (passes : nat)
    (s : Sys) (r : result unit) (s' : Sys) : Prop :=
  exists names s0 st s1,
    main_loop w passes (start names) s0 = (Ok (Exited, st), s1)
    /\ precedes_output s s1
    /\ (write_results disk (project_data st) ;; remove_scratch disk) s1
       = (r, s').

(** * Properties *)

(** ** Strings *)

Section StringFacts.

Lemma prefix_iff (a s : string) :
  prefix a s = true <-> exists rest, s = a ++ rest.
Proof.
  revert s; induction a as [|c a IH]; intros s; simpl.
  - split; [exists s; reflexivity | destruct s; reflexivity].
  - destruct s as [|c' s].
    + split; [discriminate | intros [rest H]; discriminate].
    + simpl. destruct (ascii_dec c c') as [->|Hne].
      * rewrite IH. split; intros [rest H]; exists rest.
        -- now rewrite H.
        -- now inversion H.
      * split; [discriminate|].
        intros [rest H]. inversion H. congruence.
Qed.

Lemma contains_iff (a s : string) :
  PyStr.contains a s = true <-> exists pre rest, s = pre ++ a ++ rest.
Proof.
  induction s as [|c s IH]; cbn [PyStr.contains].
  - rewrite orb_false_r, prefix_iff. split.
    + intros [rest H]. exists "", rest. exact H.
    + intros [pre [rest H]].
      destruct pre; [exists rest; exact H|discriminate].
  - rewrite orb_true_iff, prefix_iff, IH. split.
    + intros [[rest H]|[pre [rest H]]].
      * exists "", rest. exact H.
      * exists (String c pre), rest. simpl. now rewrite H.
    + intros [pre [rest H]]. destruct pre as [|c' pre].
      * left. exists rest. exact H.
      * right. exists pre, rest. simpl in H. now inversion H.
Qed.

Lemma lower_app (a b : string) :
  PyStr.lower (a ++ b) = PyStr.lower a ++ PyStr.lower b.
Proof. induction a as [|c a IH]; simpl; [reflexivity | now rewrite IH]. Qed.

Lemma lower_split (s a b : string) :
  PyStr.lower s = a ++ b ->
  exists x y, s = x ++ y /\ PyStr.lower x = a /\ PyStr.lower y = b.
Proof.
  revert s; induction a as [|c a IH]; intros s H.
  - exists "", s. repeat split. exact H.
  - destruct s as [|c' s]; [discriminate|].
    simpl in H. inversion H as [[Hc Hs]].
    destruct (IH s Hs) as [x [y [-> [Hx Hy]]]].
    exists (String c' x), y. simpl. rewrite Hx, Hy. repeat split.
Qed.

Lemma contains_lower_mentions (word message : string) :
  PyStr.contains word (PyStr.lower message) = true <-> mentions word message.
Proof.
  rewrite contains_iff. split.
  - intros [pre [rest H]].
    destruct (lower_split _ _ _ H) as [x [y [-> [_ Hy]]]].
    destruct (lower_split _ _ _ Hy) as [u [v [-> [Hu _]]]].
    exists x, u, v. split; [reflexivity | exact Hu].
  - intros [x [u [v [-> Hu]]]].
    exists (PyStr.lower x), (PyStr.lower v).
    now rewrite !lower_app, Hu.
Qed.

End StringFacts.

(** ** The dialog handler *)

Lemma plain_kind_test (kind : string) :
  ((kind =? "alert") || (kind =? "confirm") || (kind =? "prompt")
   || (kind =? "beforeunload")) = true <-> In kind plain_kinds.
Proof.
  unfold plain_kinds; simpl.
  rewrite !orb_true_iff, !String.eqb_eq.
  intuition congruence.
Qed.

(** C6.  [handle_dialog] accepts every alert, confirm, prompt and
    beforeunload dialog; a dialog of any other kind is accepted when its
    message mentions "location" in any letter case and dismissed when it
    does not. *)
Theorem handle_dialog_policy (dialog : Dialog) :
  (In (dialog_type dialog) plain_kinds ->
   action (handle_dialog dialog) = Accept)
  /\ (~ In (dialog_type dialog) plain_kinds ->
      (action (handle_dialog dialog) = Accept
       <-> mentions "location" (dialog_message dialog))
      /\ (action (handle_dialog dialog) = Dismiss
          <-> ~ mentions "location" (dialog_message dialog))).
Proof.
  rewrite <- contains_lower_mentions.
  pose proof (plain_kind_test (dialog_type dialog)) as Hk.
  unfold handle_dialog.
  destruct (dialog_type dialog =? "alert") eqn:E1;
    destruct (dialog_type dialog =? "confirm") eqn:E2;
    destruct (dialog_type dialog =? "prompt") eqn:E3;
    destruct (dialog_type dialog =? "beforeunload") eqn:E4;
    simpl in *;
    try (split; [reflexivity | intros Hn; exfalso; apply Hn, Hk; reflexivity]).
  split.
  - intros Hin. apply Hk in Hin. discriminate.
  - intros _.
    destruct (PyStr.contains "location" (PyStr.lower (dialog_message dialog)));
      simpl; split; split; try reflexivity; try discriminate;
      intros H; try (exfalso; apply H; reflexivity); congruence.
Qed.

(** The three dialogs of the specification's scenario. *)
Example handle_dialog_scenario :
  action (handle_dialog {| dialog_type := "confirm";
                           dialog_message := "Leave this page?" |}) = Accept
  /\ action (handle_dialog {| dialog_type := "permission";
                              dialog_message := "Allow access to your Location" |})
     = Accept
  /\ action (handle_dialog {| dialog_type := "permission";
                              dialog_message := "Show notifications" |})
     = Dismiss.
Proof. repeat split. Qed.

(** ** Reasoning about the monad *)

Section WpRules.

Context {A B : Type}.

Lemma wp_elim (m : M A) Q s r s' : wp m Q s -> m s = (r, s') -> Q r s'.
Proof. unfold wp; intros H E; now rewrite E in H. Qed.

Lemma wp_intro (m : M A) (Q : result A -> Sys -> Prop) s :
  (forall r s', m s = (r, s') -> Q r s') -> wp m Q s.
Proof. unfold wp; intros H; apply H; now destruct (m s). Qed.

Lemma wp_mono (m : M A) (Q Q' : result A -> Sys -> Prop) s :
  wp m Q s -> (forall r s', Q r s' -> Q' r s') -> wp m Q' s.
Proof. unfold wp; auto. Qed.

Lemma wp_ret (a : A) (Q : result A -> Sys -> Prop) s :
  Q (Ok a) s -> wp (ret a) Q s.
Proof. exact (fun H => H). Qed.

Lemma wp_raise (e : exn) (Q : result A -> Sys -> Prop) s :
  Q (Raise e) s -> wp (raise e) Q s.
Proof. exact (fun H => H). Qed.

Lemma wp_bind (m : M A) (k : A -> M B) (Q : result B -> Sys -> Prop) s :
  wp m (fun r s1 => match r with
                    | Ok a => wp (k a) Q s1
                    | Raise e => Q (Raise e) s1
                    | OutOfFuel => Q OutOfFuel s1
                    end) s ->
  wp (bind m k) Q s.
Proof. unfold wp, bind; destruct (m s) as [[a|e|] s1]; auto. Qed.

Lemma wp_try_except (m : M A) (h : exn -> M A)
    (Q : result A -> Sys -> Prop) s :
  wp m (fun r s1 => match r with
                    | Raise e => wp (h e) Q s1
                    | _ => Q r s1
                    end) s ->
  wp (try_except m h) Q s.
Proof. unfold wp, try_except; destruct (m s) as [[a|e|] s1]; auto. Qed.

Lemma wp_out_of_fuel (Q : result A -> Sys -> Prop) s :
  Q OutOfFuel s -> wp out_of_fuel Q s.
Proof. exact (fun H => H). Qed.

End WpRules.

Lemma wp_time_time (Q : result N -> Sys -> Prop) s :
  Q (Ok (now s)) s -> wp time_time Q s.
Proof. exact (fun H => H). Qed.

Lemma wp_asyncio_sleep ms (Q : result unit -> Sys -> Prop) s :
  Q (Ok tt) (set_clock (tick s) (now s + ms) (S (sleeps s)) s) ->
  wp (asyncio_sleep ms) Q s.
Proof. exact (fun H => H). Qed.

Lemma wp_logging e (Q : result unit -> Sys -> Prop) s :
  (forall s', log s' = (log s ++ [e])%list -> tick s' = tick s ->
              now s' = now s -> sleeps s' = sleeps s ->
              csv_file s' = csv_file s -> Q (Ok tt) s') ->
  wp (logging e) Q s.
Proof. intros H; apply H; reflexivity. Qed.

Section WpPage.

Variable w : World.

Lemma wp_await {A} (op : Dom -> result A) (Q : result A -> Sys -> Prop) s :
  match fault (w (tick s)) with
  | Some e => Q (Raise e) (next w s)
  | None => Q (op (w (tick s))) (next w s)
  end ->
  wp (await w op) Q s.
Proof. unfold wp, await, next; destruct (fault (w (tick s))); auto. Qed.

Lemma wp_await_quiet {A} (op : Dom -> result A)
    (Q : result A -> Sys -> Prop) s :
  fault (w (tick s)) = None ->
  Q (op (w (tick s))) (next w s) ->
  wp (await w op) Q s.
Proof. intros Hq H; apply wp_await; now rewrite Hq. Qed.

End WpPage.

(** ** Field resolution: one polling cycle on a snapshot *)

Section Cycle.

Variable w : World.
Variable d : Dom.
Hypothesis d_quiet : fault d = None.

Lemma shows_weaken s s' n n' :
  shows w s n d -> tick s <= tick s' -> tick s' + n' <= tick s + n ->
  shows w s' n' d.
Proof. intros H H1 H2 t Ht; apply H; lia. Qed.

Lemma shows_now s n : shows w s (S n) d -> w (tick s) = d.
Proof. intros H; apply H; lia. Qed.

Lemma shows_fault s n : shows w s (S n) d -> fault (w (tick s)) = None.
Proof. intros H; now rewrite (shows_now _ _ H). Qed.

(** A probe of a source returns the value of the source in the
    snapshot, after one or two page operations and without sleeping. *)
Lemma probe_shows (loc : locator) s :
  shows w s 2 d ->
  wp (probe w loc)
     (returns (fun r s' =>
        r = source_value (loc d)
        /\ sleeps s' = sleeps s
        /\ tick s' = tick s + (if (length (loc d) =? 0)%nat then 1 else 2)))
     s.
Proof.
  intros Hs. unfold probe.
  apply wp_bind, wp_await_quiet; [now apply shows_fault with 1|].
  rewrite (shows_now _ _ Hs).
  destruct (loc d) as [|text rest] eqn:Hloc; simpl.
  - apply wp_ret; simpl. repeat split; lia.
  - apply wp_bind, wp_await_quiet.
    + simpl. rewrite (Hs (S (tick s))) by lia. exact d_quiet.
    + simpl. rewrite (Hs (S (tick s))) by lia. rewrite Hloc.
      apply wp_ret; simpl. repeat split; lia.
Qed.

Lemma both_absent_shows (first second : locator) s :
  shows w s 2 d ->
  wp (both_absent w first second)
     (returns (fun r s' =>
        r = ((length (first d) =? 0) && (length (second d) =? 0))%nat
        /\ sleeps s' = sleeps s
        /\ tick s' = tick s + (if (length (first d) =? 0)%nat then 2 else 1)))
     s.
Proof.
  intros Hs. unfold both_absent.
  apply wp_bind, wp_await_quiet; [now apply shows_fault with 1|].
  rewrite (shows_now _ _ Hs).
  destruct (length (first d) =? 0)%nat; simpl.
  - apply wp_bind, wp_await_quiet; simpl.
    + rewrite (Hs (S (tick s))) by lia. exact d_quiet.
    + rewrite (Hs (S (tick s))) by lia. apply wp_ret; simpl.
      repeat split; lia.
  - apply wp_ret; simpl. repeat split; lia.
Qed.

(** In a cycle on the snapshot, the first source that is present with
    a value ends the loop with that value. *)
Lemma poll_sources_winner fuel first second start_time s v :
  shows w s 4 d ->
  winner first second d = Some v ->
  wp (poll_sources w (S fuel) first second start_time)
     (returns (fun r s' => r = v /\ sleeps s' = sleeps s
                           /\ tick s <= tick s')) s.
Proof.
  intros Hs Hw. unfold winner in Hw. simpl.
  apply wp_bind.
  eapply wp_mono; [apply (probe_shows first), (shows_weaken s s 4 2 Hs); lia|].
  intros [r1| |] s1; simpl; try tauto. intros [-> [Hz1 Ht1]].
  destruct (source_value (first d)) as [v1|].
  - apply wp_ret; simpl. repeat split; [congruence | congruence | lia].
  - apply wp_bind.
    eapply wp_mono;
      [apply (probe_shows second), (shows_weaken s s1 4 2 Hs);
       destruct (length (first d) =? 0)%nat; lia|].
    intros [r2| |] s2; simpl; try tauto. intros [-> [Hz2 Ht2]].
    rewrite Hw. apply wp_ret; simpl.
    repeat split; [congruence | lia].
Qed.

(** When neither source is present the cycle ends the loop with "--". *)
Lemma poll_sources_absent fuel first second start_time s :
  shows w s 4 d ->
  first d = [] -> second d = [] ->
  wp (poll_sources w (S fuel) first second start_time)
     (returns (fun r s' => r = "--" /\ sleeps s' = sleeps s
                           /\ tick s' = tick s + 4)) s.
Proof.
  intros Hs H1 H2. simpl.
  apply wp_bind.
  eapply wp_mono; [apply (probe_shows first), (shows_weaken s s 4 2 Hs); lia|].
  intros [r1| |] s1; simpl; try tauto. rewrite H1; simpl. intros [-> [Hz1 Ht1]].
  apply wp_bind.
  eapply wp_mono;
    [apply (probe_shows second), (shows_weaken s s1 4 2 Hs); lia|].
  intros [r2| |] s2; simpl; try tauto. rewrite H2; simpl. intros [-> [Hz2 Ht2]].
  apply wp_bind.
  eapply wp_mono;
    [apply (both_absent_shows first second), (shows_weaken s s2 4 2 Hs); lia|].
  intros [r3| |] s3; simpl; try tauto. rewrite H1, H2; simpl.
  intros [-> [Hz3 Ht3]].
  apply wp_ret; simpl. repeat split; try congruence; lia.
Qed.


(** A resolution of a single-source field whose text is a value takes
    three page operations and no sleep. *)
Lemma resolve_field_shows (loc : locator) s text :
  shows w s 3 d ->
  loc d = [text] -> is_placeholder text = false ->
  wp (resolve_field w loc)
     (returns (fun r s' => r = text /\ sleeps s' = sleeps s
                           /\ tick s' = tick s + 3)) s.
Proof.
  intros Hs Hloc Hp. unfold resolve_field, wait_for_visible, text_content.
  apply wp_bind, wp_await_quiet; [now apply shows_fault with 2|].
  rewrite (shows_now _ _ Hs), Hloc.
  apply wp_bind, wp_time_time. change poll_fuel with (S 199).
  apply wp_bind. cbn [wait_while_placeholder]. unfold text_content.
  apply wp_bind, wp_await_quiet; cbn [next set_clock tick].
  { rewrite (Hs (S (tick s))) by lia. exact d_quiet. }
  rewrite (Hs (S (tick s))) by lia. rewrite Hloc, Hp.
  apply wp_ret, wp_await_quiet; cbn [next set_clock tick].
  { rewrite (Hs (S (S (tick s)))) by lia. exact d_quiet. }
  rewrite (Hs (S (S (tick s)))) by lia. rewrite Hloc.
  simpl. repeat split; lia.
Qed.

(** A cycle of the GST loop on a snapshot whose first match is not
    blank ends the loop with that text. *)
Lemma poll_gst_shows fuel start_time s text rest v :
  shows w s 2 d ->
  gst_no_strong d = text :: rest ->
  text = Some v -> is_nonblank text = true ->
  wp (poll_gst w (S fuel) start_time)
     (returns (fun r s' => r = v /\ sleeps s' = sleeps s
                           /\ tick s' = tick s + 2)) s.
Proof.
  intros Hs Hloc Hv Hn. cbn [poll_gst]. unfold count, first_text_content.
  apply wp_bind, wp_await_quiet; [now apply shows_fault with 1|].
  rewrite (shows_now _ _ Hs), Hloc. cbn [length Nat.ltb Nat.leb].
  apply wp_bind, wp_bind, wp_await_quiet; cbn [next set_clock tick].
  { rewrite (Hs (S (tick s))) by lia. exact d_quiet. }
  rewrite (Hs (S (tick s))) by lia. rewrite Hloc, Hn, Hv.
  apply wp_ret, wp_ret. simpl. repeat split; lia.
Qed.

End Cycle.

(** ** Field resolution: the polling loops end on the clock *)

Section Polling.

Variable w : World.
Hypothesis w_quiet : quiet w.

Lemma now_next s : (now s <= now (next w s))%N.
Proof. unfold next; simpl; lia. Qed.

Ltac clock := cbn [next set_clock now tick sleeps] in *.

(** The loop of a single-source field returns: a read gave a value, or
    the sixty seconds are over. *)
Lemma wait_while_placeholder_returns (loc : locator) start_time fuel :
  attached w loc ->
  forall s,
    (start_time <= now s)%N ->
    (60000 <= now s - start_time + 500 * N.of_nat fuel)%N ->
    wp (wait_while_placeholder w (S fuel) loc start_time)
       (returns (fun _ s' =>
          (now s <= now s')%N
          /\ ((exists text, loc (w (pred (tick s'))) = [text]
                            /\ is_placeholder text = false)
              \/ (60000 <= now s' - start_time)%N)))
       s.
Proof.
  intros Hat. induction fuel as [|fuel IH]; intros s Hst Hf;
    cbn [wait_while_placeholder]; unfold text_content;
    (apply wp_bind, wp_await_quiet; [apply w_quiet|]);
    destruct (Hat (tick s)) as [text Ht]; rewrite Ht;
    pose proof (now_next s) as Hn;
    (destruct (is_placeholder text) eqn:Hp;
     [ apply wp_bind, wp_time_time;
       destruct (N.ltb_spec (now (next w s) - start_time) 60000) as [Hlt|Hge]
     | apply wp_ret; simpl; split; [exact Hn | left; exists text; now split] ]);
    try (apply wp_ret; simpl; split; [exact Hn | right; exact Hge]).
  - exfalso. lia.
  - apply wp_bind, wp_asyncio_sleep.
    rewrite Nat2N.inj_succ in Hf.
    eapply wp_mono; [apply IH; clock; lia|].
    intros [[]| |] s'; simpl; try tauto.
    intros [H1 H2]. split; [lia | exact H2].
Qed.

(** A probe of a steady source returns; a text it returns is the value
    of the source at the moment it is read. *)
Lemma probe_returns (loc : locator) s :
  steady w loc ->
  wp (probe w loc)
     (returns (fun r s' =>
        (now s <= now s')%N
        /\ forall v, r = Some v ->
             exists t, source_value (loc (w t)) = Some v))
     s.
Proof.
  intros Hst. unfold probe, count, first_text_content.
  apply wp_bind, wp_await_quiet; [apply w_quiet|].
  pose proof (now_next s) as Hn.
  destruct (loc (w (tick s))) as [|text rest] eqn:Hloc; simpl.
  - apply wp_ret; simpl. split; [exact Hn | discriminate].
  - apply wp_bind, wp_await_quiet; [apply w_quiet|].
    pose proof (now_next (next w s)) as Hn'.
    cbn [next set_clock tick] in *.
    destruct (loc (w (S (tick s)))) as [|text' rest'] eqn:Hloc'.
    + exfalso. destruct Hst as [H|H].
      * rewrite H in Hloc. discriminate.
      * now apply (H (S (tick s))).
    + apply wp_ret; simpl. split; [lia|].
      intros v Hv. exists (S (tick s)). rewrite Hloc'. simpl.
      destruct (has_value text'); [exact Hv | discriminate].
Qed.

Lemma both_absent_returns (first second : locator) s :
  wp (both_absent w first second)
     (returns (fun _ s' => (now s <= now s')%N)) s.
Proof.
  unfold both_absent, count.
  apply wp_bind, wp_await_quiet; [apply w_quiet|].
  pose proof (now_next s) as Hn.
  destruct (length (first (w (tick s))) =? 0)%nat.
  - apply wp_bind, wp_await_quiet; [apply w_quiet|].
    pose proof (now_next (next w s)) as Hn'.
    apply wp_ret; simpl. clock. lia.
  - apply wp_ret; simpl. exact Hn.
Qed.

(** The loop of a two-source field returns: the text of a source that
    has a value, or "--". *)
Lemma poll_sources_returns (first second : locator) start_time fuel :
  steady w first -> steady w second ->
  forall s,
    (start_time <= now s)%N ->
    (40000 < now s - start_time + 500 * N.of_nat fuel)%N ->
    wp (poll_sources w (S fuel) first second start_time)
       (returns (fun r s' =>
          r = "--"
          \/ exists t, source_value (first (w t)) = Some r
                       \/ source_value (second (w t)) = Some r))
       s.
Proof.
  intros H1 H2. induction fuel as [|fuel IH]; intros s Hst Hf;
    cbn [poll_sources];
    (apply wp_bind; eapply wp_mono; [apply probe_returns, H1|]);
    (intros [[v1|]| |] s1; simpl; try tauto; intros [Hn1 Hv1];
     [ apply wp_ret; simpl; right;
       destruct (Hv1 v1 eq_refl) as [t Ht]; exists t; now left | ]);
    (apply wp_bind; eapply wp_mono; [apply probe_returns, H2|]);
    (intros [[v2|]| |] s2; simpl; try tauto; intros [Hn2 Hv2];
     [ apply wp_ret; simpl; right;
       destruct (Hv2 v2 eq_refl) as [t Ht]; exists t; now right | ]);
    (apply wp_bind; eapply wp_mono; [apply both_absent_returns|]);
    (intros [[|]| |] s3; simpl; try tauto; intros Hn3;
     [ apply wp_ret; simpl; now left | ]);
    apply wp_bind, wp_time_time;
    (destruct (N.ltb_spec 40000 (now s3 - start_time)) as [Hlt|Hge];
     [ apply wp_ret; simpl; now left | ]).
  - exfalso. lia.
  - rewrite Nat2N.inj_succ in Hf.
    apply wp_bind, wp_asyncio_sleep. apply IH; clock; lia.
Qed.

(** The GST loop returns: a text that is not blank, or "--" once more
    than forty seconds have passed. *)
Lemma poll_gst_returns start_time fuel :
  steady w gst_no_strong ->
  forall s,
    (start_time <= now s)%N ->
    (40000 < now s - start_time + 500 * N.of_nat fuel)%N ->
    wp (poll_gst w (S fuel) start_time)
       (returns (fun r s' =>
          (exists t text rest, gst_no_strong (w t) = text :: rest
                               /\ text = Some r /\ is_nonblank text = true)
          \/ (r = "--" /\ (40000 < now s' - start_time)%N
              /\ sleeps s <= sleeps s')))
       s.
Proof.
  intros Hst. induction fuel as [|fuel IH]; intros s Hs Hf;
    cbn [poll_gst]; unfold count, first_text_content;
    (apply wp_bind, wp_await_quiet; [apply w_quiet|]);
    pose proof (now_next s) as Hn;
    (destruct (gst_no_strong (w (tick s))) as [|text rest] eqn:Hloc;
     cbn [length Nat.ltb Nat.leb];
     [ apply wp_bind, wp_ret
     | apply wp_bind, wp_bind, wp_await_quiet; [apply w_quiet|];
       pose proof (now_next (next w s)) as Hn';
       cbn [next set_clock tick] in *;
       destruct (gst_no_strong (w (S (tick s)))) as [|text' rest'] eqn:Hloc';
       [ exfalso; destruct Hst as [H|H];
         [ rewrite H in Hloc; discriminate | now apply (H (S (tick s))) ]
       | apply wp_ret;
         destruct (is_nonblank text') eqn:Hnb;
         [ destruct text' as [v|]; [|discriminate];
           apply wp_ret; simpl; left;
           exists (S (tick s)), (Some v), rest'; repeat split; assumption
         | ] ] ]);
    apply wp_bind, wp_time_time;
    match goal with
    | |- context [(40000 <? ?e)%N] =>
        destruct (N.ltb_spec 40000 e) as [Hlt|Hge]
    end;
    try (apply wp_ret; simpl; right; clock; repeat split;
         [exact Hlt | lia]);
    try (exfalso; clock; lia);
    rewrite Nat2N.inj_succ in Hf;
    apply wp_bind, wp_asyncio_sleep;
    (eapply wp_mono; [apply IH; clock; lia|]);
    intros [r| |] s'; simpl; try tauto;
    (intros [H|[H3 [H4 H5]]]; [left; exact H | right; repeat split; try assumption; lia]).
Qed.

End Polling.

(** ** Field resolution: the properties *)

Lemma wp_returns {A} (m : M A) (Q : A -> Sys -> Prop) s :
  wp m (returns Q) s -> exists a s', m s = (Ok a, s') /\ Q a s'.
Proof.
  unfold wp. destruct (m s) as [[a| |] s']; simpl; try tauto.
  intros H. now exists a, s'.
Qed.

Lemma winner_none first second d :
  winner first second d = None ->
  source_value (first d) = None /\ source_value (second d) = None.
Proof.
  unfold winner. destruct (source_value (first d)); [discriminate|tauto].
Qed.

(** ** Field resolution: a value that appears in a later cycle *)

Section Late.

Variable w : World.
Variable d : Dom.
Hypothesis d_quiet : fault d = None.

(** A probe of a source on the snapshot, with its page operations and
    the time they take. *)
Lemma probe_cycle (loc : locator) s :
  shows w s (probe_ops (loc d)) d ->
  wp (probe w loc)
     (returns (fun r s' =>
        r = source_value (loc d)
        /\ sleeps s' = sleeps s
        /\ tick s' = tick s + probe_ops (loc d)
        /\ now s' = (now s + N.of_nat (probe_ops (loc d)) * latency d)%N))
     s.
Proof.
  unfold probe_ops, probe, count, first_text_content. intros Hs.
  assert (H0 : w (tick s) = d)
    by (apply Hs; destruct (length (loc d) =? 0)%nat; lia).
  apply wp_bind, wp_await_quiet; [now rewrite H0|].
  rewrite H0.
  destruct (loc d) as [|text rest] eqn:Hloc; cbn [length Nat.eqb Nat.ltb Nat.leb].
  - apply wp_ret. cbn [returns next set_clock tick now sleeps source_value].
    rewrite H0. repeat split; lia.
  - cbn [length Nat.eqb] in Hs.
    assert (H1 : w (S (tick s)) = d) by (apply Hs; lia).
    apply wp_bind, wp_await_quiet; cbn [next set_clock tick];
      [now rewrite H1|].
    rewrite H1, Hloc. apply wp_ret.
    cbn [returns next set_clock tick now sleeps source_value].
    rewrite H0, H1. repeat split; lia.
Qed.

(** The test of line 244 on the snapshot. *)
Lemma both_absent_cycle (first second : locator) s :
  shows w s (if (length (first d) =? 0)%nat then 2 else 1) d ->
  wp (both_absent w first second)
     (returns (fun r s' =>
        r = ((length (first d) =? 0) && (length (second d) =? 0))%nat
        /\ sleeps s' = sleeps s
        /\ tick s' = tick s + (if (length (first d) =? 0)%nat then 2 else 1)
        /\ now s' = (now s
                     + N.of_nat (if (length (first d) =? 0)%nat then 2 else 1)
                       * latency d)%N))
     s.
Proof.
  unfold both_absent, count. intros Hs.
  assert (H0 : w (tick s) = d)
    by (apply Hs; destruct (length (first d) =? 0)%nat; lia).
  apply wp_bind, wp_await_quiet; [now rewrite H0|].
  rewrite H0.
  destruct (length (first d) =? 0)%nat.
  - assert (H1 : w (S (tick s)) = d) by (apply Hs; lia).
    apply wp_bind, wp_await_quiet; cbn [next set_clock tick];
      [now rewrite H1|].
    rewrite H1. apply wp_ret.
    cbn [returns next set_clock tick now sleeps andb].
    rewrite H0, H1. repeat split; lia.
  - apply wp_ret. cbn [returns next set_clock tick now sleeps andb].
    rewrite H0. repeat split; lia.
Qed.

Variables first second : locator.
Hypothesis no_value : winner first second d = None.
Hypothesis one_present : first d <> [] \/ second d <> [].

(** A cycle on a snapshot in which a source is present and none has a
    value ends in a sleep, while the forty seconds are not over. *)
Lemma poll_sources_sleeps_once fuel start_time
    (Q : result string -> Sys -> Prop) s :
  shows w s (cycle_ops first second d) d ->
  (start_time <= now s)%N ->
  (now s - start_time + N.of_nat (cycle_ops first second d) * latency d
   <= 40000)%N ->
  (forall s',
     tick s' = tick s + cycle_ops first second d ->
     now s' = (now s + cycle_ms (cycle_ops first second d) d)%N ->
     sleeps s' = S (sleeps s) ->
     wp (poll_sources w fuel first second start_time) Q s') ->
  wp (poll_sources w (S fuel) first second start_time) Q s.
Proof.
  unfold cycle_ops, cycle_ms. intros Hs Hst Hc Hk.
  destruct (winner_none _ _ _ no_value) as [N1 N2].
  cbn [poll_sources].
  apply wp_bind. eapply wp_mono.
  { apply (probe_cycle first s). intros t Ht. apply Hs. lia. }
  intros [r1| |] s1; cbn [returns]; try tauto.
  rewrite N1. intros [-> [Z1 [T1 C1]]].
  apply wp_bind. eapply wp_mono.
  { apply (probe_cycle second s1). intros t Ht. apply Hs. lia. }
  intros [r2| |] s2; cbn [returns]; try tauto.
  rewrite N2. intros [-> [Z2 [T2 C2]]].
  apply wp_bind. eapply wp_mono.
  { apply (both_absent_cycle first second s2). intros t Ht. apply Hs. lia. }
  intros [r3| |] s3; cbn [returns]; try tauto.
  intros [-> [Z3 [T3 C3]]].
  assert (E : ((length (first d) =? 0) && (length (second d) =? 0))%nat
              = false).
  { destruct one_present as [H|H].
    - destruct (first d); [now elim H | reflexivity].
    - destruct (second d); [now elim H | apply andb_false_r]. }
  rewrite E.
  apply wp_bind, wp_time_time.
  assert (C : now s3 = (now s + N.of_nat (probe_ops (first d)
                                          + probe_ops (second d)
                                          + (if (length (first d) =? 0)%nat
                                             then 2 else 1)) * latency d)%N).
  { rewrite C3, C2, C1, !Nat2N.inj_add. lia. }
  destruct (N.ltb_spec 40000 (now s3 - start_time)) as [Hlt|Hge];
    [exfalso; lia|].
  apply wp_bind, wp_asyncio_sleep. apply Hk.
  - cbn [set_clock tick]. lia.
  - cbn [set_clock now]. lia.
  - cbn [set_clock sleeps]. lia.
Qed.

End Late.

(** The loop of a two-source field on a page that answers as [d0], on
    which a source is present and none has a value, during [k] cycles
    that fit in the forty seconds: it sleeps [k] times and goes on from
    the state it has reached. *)
Lemma poll_sources_skips (w : World) (d0 : Dom) (first second : locator)
    (start_time : N) (Q : result string -> Sys -> Prop) :
  fault d0 = None ->
  winner first second d0 = None ->
  first d0 <> [] \/ second d0 <> [] ->
  forall k fuel s,
    (forall t, tick s <= t < tick s + k * cycle_ops first second d0 ->
               w t = d0) ->
    (start_time <= now s)%N ->
    (now s - start_time
     + N.of_nat k * cycle_ms (cycle_ops first second d0) d0 <= 40500)%N ->
    (forall s',
       tick s' = tick s + k * cycle_ops first second d0 ->
       sleeps s' = sleeps s + k ->
       wp (poll_sources w (S fuel) first second start_time) Q s') ->
    wp (poll_sources w (S (k + fuel)) first second start_time) Q s.
Proof.
  intros Q0 N0 P0.
  induction k as [|k IH]; intros fuel s H0 Hst Hc Hk.
  - apply Hk; lia.
  - rewrite Nat2N.inj_succ in Hc. unfold cycle_ms in Hc, IH.
    change (S (S k + fuel)) with (S (S (k + fuel))).
    apply (poll_sources_sleeps_once w d0 Q0 first second N0 P0).
    + intros t Ht. apply H0. lia.
    + exact Hst.
    + lia.
    + intros s' T' C' Z'. unfold cycle_ms in C'.
      apply IH.
      * intros t Ht. apply H0. lia.
      * lia.
      * lia.
      * intros s'' T'' Z''. apply Hk; lia.
Qed.

Lemma cycle_ms_fuel (k ops : nat) (d : Dom) :
  (N.of_nat k * cycle_ms ops d <= 40500)%N -> k <= 199.
Proof. unfold cycle_ms. intros H. nia. Qed.

(** The claim of C4 as worded fails: a Company Name that is present with
    an empty text is present and is not the placeholder, yet it does not
    win; the loop polls on through the forty seconds, 45 sleeps on this
    page, and gives "--". *)
Lemma empty_company_name_does_not_win :
  claimed_winner company_name_strong propietory_name_strong company_empty
  = Some ""
  /\ fst (resolve_sources (still company_empty) company_name_strong
            propietory_name_strong fresh) = Ok "--"
  /\ sleeps (snd (resolve_sources (still company_empty) company_name_strong
                    propietory_name_strong fresh)) = 45.
Proof. vm_compute. repeat split. Qed.

(** C4, amended.  A two-source field is polled cycle after cycle, its
    sources in priority order, and the first source that is present with
    a value (a text that is not empty and, once trimmed, not "--") gives
    the field its value in the cycle in which it is seen: at once on a
    page that answers as the snapshot [d] (first part), and after [k]
    sleeps when the page first answers, during [k] cycles that fit in
    the forty seconds, as a snapshot [d0] on which a source is present
    and none has a value (last part).  For Promoter Name: with Company
    Name absent and Proprietor Name showing "Acme Builders" the field
    resolves to "Acme Builders"; with both sources absent it resolves to
    "--" after four page queries and no sleep, whatever the time left
    before the ceiling.  Both sources found absent in a later cycle end
    the loop in the same way, in that cycle. *)
Theorem promoter_name_priority (w : World) (s : Sys) (d : Dom) :
  fault d = None ->
  (shows w s 4 d ->
   (forall fuel first second start_time v,
      winner first second d = Some v ->
      exists s', poll_sources w (S fuel) first second start_time s = (Ok v, s')
                 /\ sleeps s' = sleeps s)
   /\ (company_name_strong d = [] ->
       (exists rest, propietory_name_strong d = Some "Acme Builders" :: rest) ->
       exists s', resolve_sources w company_name_strong propietory_name_strong s
                  = (Ok "Acme Builders", s')
                  /\ sleeps s' = sleeps s)
   /\ (company_name_strong d = [] -> propietory_name_strong d = [] ->
       exists s', resolve_sources w company_name_strong propietory_name_strong s
                  = (Ok "--", s')
                  /\ sleeps s' = sleeps s /\ tick s' = tick s + 4))
  /\ (forall d0 first second k,
        fault d0 = None ->
        winner first second d0 = None ->
        first d0 <> [] \/ second d0 <> [] ->
        (forall t, tick s <= t < tick s + k * cycle_ops first second d0 ->
                   w t = d0) ->
        (forall t, tick s + k * cycle_ops first second d0 <= t
                   < tick s + k * cycle_ops first second d0 + 4 ->
                   w t = d) ->
        (N.of_nat k * cycle_ms (cycle_ops first second d0) d0 <= 40500)%N ->
        (forall v,
           winner first second d = Some v ->
           exists s', resolve_sources w first second s = (Ok v, s')
                      /\ sleeps s' = sleeps s + k)
        /\ (first d = [] -> second d = [] ->
            exists s', resolve_sources w first second s = (Ok "--", s')
                       /\ sleeps s' = sleeps s + k
                       /\ tick s' = tick s + k * cycle_ops first second d0
                                    + 4)).
Proof.
  intros Hq. split; [intros Hs; split; [|split]|].
  - intros fuel first second start_time v Hw.
    destruct (wp_returns _ _ _
                (poll_sources_winner w d Hq fuel first second start_time s v Hs Hw))
      as [v' [s' [E [-> [Hz _]]]]].
    now exists s'.
  - intros Hc [rest Hp].
    assert (Hw : winner company_name_strong propietory_name_strong d
                 = Some "Acme Builders")
      by (unfold winner; rewrite Hc, Hp; reflexivity).
    destruct (wp_returns _ _ _
                (poll_sources_winner w d Hq 199 _ _ (now s) s _ Hs Hw))
      as [v' [s' [E [-> [Hz _]]]]].
    now exists s'.
  - intros Hc Hp.
    destruct (wp_returns _ _ _
                (poll_sources_absent w d Hq 199 _ _ (now s) s Hs Hc Hp))
      as [v' [s' [E [-> Hz]]]].
    now exists s'.
  - intros d0 first second k Q0 N0 P0 H0 H1 Hc.
    pose proof (cycle_ms_fuel _ _ _ Hc) as Hk.
    assert (Hskip : forall Q : result string -> Sys -> Prop,
               (forall s',
                  tick s' = tick s + k * cycle_ops first second d0 ->
                  sleeps s' = sleeps s + k ->
                  wp (poll_sources w (S (199 - k)) first second (now s)) Q s') ->
               wp (resolve_sources w first second) Q s).
    { intros Q HQ. unfold resolve_sources. apply wp_bind, wp_time_time.
      change poll_fuel with (S 199).
      replace 199 with (k + (199 - k)) by lia.
      apply (poll_sources_skips w d0 first second (now s) Q Q0 N0 P0 k
               (199 - k) s H0); [lia | lia | exact HQ]. }
    split.
    + intros v W1.
      assert (H : wp (resolve_sources w first second)
                    (returns (fun r s' => r = v /\ sleeps s' = sleeps s + k))
                    s).
      { apply Hskip. intros s' T' Z'. eapply wp_mono.
        - apply (poll_sources_winner w d Hq (199 - k) first second (now s)
                   s' v); [|exact W1].
          intros t Ht. apply H1. lia.
        - intros [r| |] s''; cbn [returns]; try tauto.
          intros [-> [Z _]]. split; [reflexivity | lia]. }
      destruct (wp_returns _ _ _ H) as [r [s' [E [-> Hz]]]].
      now exists s'.
    + intros A1 A2.
      assert (H : wp (resolve_sources w first second)
                    (returns (fun r s' =>
                       r = "--" /\ sleeps s' = sleeps s + k
                       /\ tick s' = tick s + k * cycle_ops first second d0
                                    + 4)) s).
      { apply Hskip. intros s' T' Z'. eapply wp_mono.
        - apply (poll_sources_absent w d Hq (199 - k) first second (now s)
                   s'); [|exact A1|exact A2].
          intros t Ht. apply H1. lia.
        - intros [r| |] s''; cbn [returns]; try tauto.
          intros [-> [Z T]]. split; [reflexivity|]. split; lia. }
      destruct (wp_returns _ _ _ H) as [r [s' [E [-> Hz]]]].
      now exists s'.
Qed.

Lemma promoter_name_priority_witness :
  (exists s', resolve_sources (still acme_page) company_name_strong
                propietory_name_strong fresh = (Ok "Acme Builders", s')
              /\ sleeps s' = 0)
  /\ (exists s', resolve_sources (turns 8 company_pending acme_page)
                   company_name_strong propietory_name_strong fresh
                 = (Ok "Acme Builders", s')
                 /\ sleeps s' = 2)
  /\ (exists s', resolve_sources (turns 8 company_pending loading_page)
                   company_name_strong propietory_name_strong fresh
                 = (Ok "--", s')
                 /\ sleeps s' = 2 /\ tick s' = 12).
Proof.
  split; [|split].
  - refine (proj1 (proj2 (proj1 (promoter_name_priority (still acme_page)
                                   fresh acme_page _) _)) _ _).
    + reflexivity.
    + intros t _. reflexivity.
    + reflexivity.
    + exists []. reflexivity.
  - refine (proj1 (proj2 (promoter_name_priority
                            (turns 8 company_pending acme_page)
                            fresh acme_page _)
                     company_pending company_name_strong
                     propietory_name_strong 2 _ _ _ _ _ _)
              "Acme Builders" _).
    + reflexivity.
    + reflexivity.
    + reflexivity.
    + left. discriminate.
    + intros t Ht. cbn in Ht.
      unfold turns. destruct (Nat.ltb_spec t 8); [reflexivity | lia].
    + intros t Ht. cbn in Ht.
      unfold turns. destruct (Nat.ltb_spec t 8); [lia | reflexivity].
    + vm_compute. discriminate.
    + reflexivity.
  - refine (proj2 (proj2 (promoter_name_priority
                            (turns 8 company_pending loading_page)
                            fresh loading_page _)
                     company_pending company_name_strong
                     propietory_name_strong 2 _ _ _ _ _ _)
              _ _).
    + reflexivity.
    + reflexivity.
    + reflexivity.
    + left. discriminate.
    + intros t Ht. cbn in Ht.
      unfold turns. destruct (Nat.ltb_spec t 8); [reflexivity | lia].
    + intros t Ht. cbn in Ht.
      unfold turns. destruct (Nat.ltb_spec t 8); [lia | reflexivity].
    + vm_compute. discriminate.
    + reflexivity.
    + reflexivity.
Defined.

Lemma resolve_field_returns (w : World) (loc : locator) (s : Sys) :
  quiet w -> attached w loc ->
  exists text s',
    resolve_field w loc s = (Ok text, s')
    /\ loc (w (pred (tick s'))) = [text]
    /\ ((forall t, loc (w t) = [Some "--"]) ->
        text = Some "--" /\ (60000 <= now s' - now s)%N).
Proof.
  intros Hq Hat.
  apply (wp_returns (resolve_field w loc)
           (fun text s' =>
              loc (w (pred (tick s'))) = [text]
              /\ ((forall t, loc (w t) = [Some "--"]) ->
                  text = Some "--" /\ (60000 <= now s' - now s)%N))).
  unfold resolve_field, wait_for_visible.
  apply wp_bind, wp_await_quiet; [apply Hq|].
  destruct (Hat (tick s)) as [text0 Ht0]; rewrite Ht0.
  apply wp_bind, wp_time_time, wp_bind.
  eapply wp_mono.
  { apply (wait_while_placeholder_returns w Hq loc (now (next w s)) 199 Hat);
      [lia | cbn; lia]. }
  intros [[]| |] s2; simpl; try tauto. intros [Hn Hexit].
  unfold text_content. apply wp_await_quiet; [apply Hq|].
  destruct (Hat (tick s2)) as [text Ht]; rewrite Ht. simpl.
  split; [exact Ht|]. intros Hall. split.
  - rewrite Hall in Ht. congruence.
  - destruct Hexit as [[text' [H1 H2]]|Hge].
    + rewrite Hall in H1. inversion H1; subst. discriminate.
    + pose proof (now_next w s). lia.
Qed.

Lemma resolve_sources_returns (w : World) (first second : locator) (s : Sys) :
  quiet w -> steady w first -> steady w second ->
  exists text s',
    resolve_sources w first second s = (Ok text, s')
    /\ ((forall t, winner first second (w t) = None) -> text = "--").
Proof.
  intros Hq H1 H2.
  apply (wp_returns (resolve_sources w first second)
           (fun text _ =>
              (forall t, winner first second (w t) = None) -> text = "--")).
  unfold resolve_sources. apply wp_bind, wp_time_time.
  eapply wp_mono.
  { apply (poll_sources_returns w Hq first second (now s) 199 H1 H2);
      [lia | cbn; lia]. }
  intros [text| |] s'; simpl; try tauto.
  intros [->|[t Ht]] Hnone; [reflexivity|].
  destruct (winner_none _ _ _ (Hnone t)) as [E1 E2].
  rewrite E1, E2 in Ht. destruct Ht; discriminate.
Qed.

Lemma resolve_gst_returns (w : World) (s : Sys) :
  quiet w -> steady w gst_no_strong ->
  exists text s',
    resolve_gst w s = (Ok text, s')
    /\ ((forall t, gst_no_strong (w t) = []) ->
        text = "--" /\ (40000 < now s' - now s)%N).
Proof.
  intros Hq Hst.
  apply (wp_returns (resolve_gst w)
           (fun text s' =>
              (forall t, gst_no_strong (w t) = []) ->
              text = "--" /\ (40000 < now s' - now s)%N)).
  unfold resolve_gst. apply wp_bind, wp_time_time.
  eapply wp_mono.
  { apply (poll_gst_returns w Hq (now s) 199 Hst); [lia | cbn; lia]. }
  intros [text| |] s'; simpl; try tauto.
  intros [[t [x [rest [Hx _]]]]|[-> [Hlt _]]] Habs.
  - rewrite Habs in Hx. discriminate.
  - now split.
Qed.

(** C5.  On a page that raises no automation error, every field
    resolution returns a value.  A single-source field whose element
    stays attached resolves to the text displayed at its last read; when
    that text is "--" throughout, the result is "--" itself, returned
    once the sixty seconds are over.  A two-source field and the GST
    field, whose elements are present throughout or never, return as
    well, with "--" when no source ever has a value. *)
Theorem field_resolution_returns (w : World) (s : Sys) :
  quiet w ->
  (forall loc, attached w loc ->
     exists text s',
       resolve_field w loc s = (Ok text, s')
       /\ loc (w (pred (tick s'))) = [text]
       /\ ((forall t, loc (w t) = [Some "--"]) ->
           text = Some "--" /\ (60000 <= now s' - now s)%N))
  /\ (forall first second, steady w first -> steady w second ->
        exists text s',
          resolve_sources w first second s = (Ok text, s')
          /\ ((forall t, winner first second (w t) = None) -> text = "--"))
  /\ (steady w gst_no_strong ->
      exists text s', resolve_gst w s = (Ok text, s')).
Proof.
  intros Hq. repeat split.
  - intros loc Hat. now apply resolve_field_returns.
  - intros first second H1 H2. now apply resolve_sources_returns.
  - intros Hst.
    destruct (resolve_gst_returns w s Hq Hst) as [text [s' [E _]]].
    now exists text, s'.
Qed.

Lemma field_resolution_returns_witness :
  exists s',
    resolve_field (still loading_page) project_name_strong fresh
    = (Ok (Some "--"), s')
    /\ (60000 <= now s' - now fresh)%N.
Proof.
  destruct (proj1 (field_resolution_returns (still loading_page) fresh
                     (fun _ => eq_refl))
              project_name_strong
              (fun _ => ex_intro _ (Some "--") eq_refl))
    as [text [s' [E [_ H]]]].
  destruct (H (fun _ => eq_refl)) as [-> Hn].
  exists s'. split; [exact E | exact Hn].
Defined.

Lemma shows_from (w : World) (d : Dom) (s s' : Sys) n :
  (forall t, tick s <= t -> w t = d) -> tick s <= tick s' -> shows w s' n d.
Proof. intros H Hle t Ht. apply H. lia. Qed.

(** C9.  On a detail view that has settled on the snapshot [d], a field
    that already shows a value resolves to it without a single sleep,
    and resolving it again gives the same value, again without a sleep:
    for a single-source field (a text other than "--"), for a two-source
    field (the first source with a value) and for GST No. (a text that is
    not blank). *)
Theorem field_resolution_idempotent (w : World) (s : Sys) (d : Dom) :
  fault d = None -> (forall t, tick s <= t -> w t = d) ->
  (forall loc text,
     loc d = [text] -> is_placeholder text = false ->
     exists s1 s2,
       resolve_field w loc s = (Ok text, s1)
       /\ resolve_field w loc s1 = (Ok text, s2)
       /\ sleeps s1 = sleeps s /\ sleeps s2 = sleeps s)
  /\ (forall first second v,
        winner first second d = Some v ->
        exists s1 s2,
          resolve_sources w first second s = (Ok v, s1)
          /\ resolve_sources w first second s1 = (Ok v, s2)
          /\ sleeps s1 = sleeps s /\ sleeps s2 = sleeps s)
  /\ (forall text rest v,
        gst_no_strong d = text :: rest -> text = Some v ->
        is_nonblank text = true ->
        exists s1 s2,
          resolve_gst w s = (Ok v, s1)
          /\ resolve_gst w s1 = (Ok v, s2)
          /\ sleeps s1 = sleeps s /\ sleeps s2 = sleeps s).
Proof.
  intros Hq Hd. repeat split.
  - intros loc text Hloc Hp.
    destruct (wp_returns _ _ _
                (resolve_field_shows w d Hq loc s text
                   (shows_from w d s s 3 Hd (le_n _)) Hloc Hp))
      as [r1 [s1 [E1 [-> [Hz1 Ht1]]]]].
    destruct (wp_returns _ _ _
                (resolve_field_shows w d Hq loc s1 text
                   (shows_from w d s s1 3 Hd ltac:(lia)) Hloc Hp))
      as [r2 [s2 [E2 [-> [Hz2 Ht2]]]]].
    exists s1, s2. repeat split; congruence.
  - intros first second v Hw.
    destruct (wp_returns _ _ _
                (poll_sources_winner w d Hq 199 first second (now s) s v
                   (shows_from w d s s 4 Hd (le_n _)) Hw))
      as [r1 [s1 [E1 [-> [Hz1 Ht1]]]]].
    destruct (wp_returns _ _ _
                (poll_sources_winner w d Hq 199 first second (now s1) s1 v
                   (shows_from w d s s1 4 Hd Ht1) Hw))
      as [r2 [s2 [E2 [-> [Hz2 _]]]]].
    exists s1, s2. repeat split; try assumption; congruence.
  - intros text rest v Hloc Hv Hn.
    destruct (wp_returns _ _ _
                (poll_gst_shows w d Hq 199 (now s) s text rest v
                   (shows_from w d s s 2 Hd (le_n _)) Hloc Hv Hn))
      as [r1 [s1 [E1 [-> [Hz1 Ht1]]]]].
    destruct (wp_returns _ _ _
                (poll_gst_shows w d Hq 199 (now s1) s1 text rest v
                   (shows_from w d s s1 2 Hd ltac:(lia)) Hloc Hv Hn))
      as [r2 [s2 [E2 [-> [Hz2 Ht2]]]]].
    exists s1, s2. repeat split; try assumption; congruence.
Qed.

Lemma field_resolution_idempotent_witness :
  exists s1 s2,
    resolve_field (still acme_page) project_name_strong fresh
    = (Ok (Some "Alpha Residency"), s1)
    /\ resolve_field (still acme_page) project_name_strong s1
       = (Ok (Some "Alpha Residency"), s2)
    /\ sleeps s1 = sleeps fresh /\ sleeps s2 = sleeps fresh.
Proof.
  refine (proj1 (field_resolution_idempotent (still acme_page) fresh
                   acme_page _ _) project_name_strong _ _ _).
  - reflexivity.
  - intros t _. reflexivity.
  - reflexivity.
  - reflexivity.
Defined.

Section LateGst.

Variable w : World.
Variable d : Dom.
Hypothesis d_quiet : fault d = None.

(** The look of a cycle of the GST loop at the snapshot. *)
Lemma poll_gst_cycle fuel start_time (Q : result string -> Sys -> Prop) s :
  shows w s (probe_ops (gst_no_strong d)) d ->
  (forall s',
     tick s' = tick s + probe_ops (gst_no_strong d) ->
     now s' = (now s + N.of_nat (probe_ops (gst_no_strong d)) * latency d)%N ->
     sleeps s' = sleeps s ->
     match gst_value (gst_no_strong d) with
     | Some text => Q (Ok text) s'
     | None =>
         if (40000 <? now s' - start_time)%N then Q (Ok "--") s'
         else wp (poll_gst w fuel start_time) Q
                 (set_clock (tick s') (now s' + 500) (S (sleeps s')) s')
     end) ->
  wp (poll_gst w (S fuel) start_time) Q s.
Proof.
  unfold probe_ops. intros Hs Hk.
  assert (H0 : w (tick s) = d)
    by (apply Hs; destruct (length (gst_no_strong d) =? 0)%nat; lia).
  cbn [poll_gst]. unfold count, first_text_content.
  apply wp_bind, wp_await_quiet; [now rewrite H0|].
  rewrite H0.
  destruct (gst_no_strong d) as [|text rest] eqn:Hloc;
    cbn [length Nat.eqb Nat.ltb Nat.leb gst_value] in *.
  - apply wp_bind, wp_ret.
    specialize (Hk (next w s)). cbn [next set_clock tick now sleeps] in Hk.
    assert (Hk' := Hk ltac:(lia) ltac:(rewrite H0; lia) eq_refl). clear Hk.
    apply wp_bind, wp_time_time. cbn [next set_clock tick now sleeps].
    destruct (40000 <? now s + latency (w (tick s)) - start_time)%N.
    + apply wp_ret. exact Hk'.
    + apply wp_bind, wp_asyncio_sleep. exact Hk'.
  - assert (H1 : w (S (tick s)) = d) by (apply Hs; lia).
    apply wp_bind, wp_bind, wp_await_quiet; cbn [next set_clock tick];
      [now rewrite H1|].
    rewrite H1, Hloc. apply wp_ret.
    specialize (Hk (next w (next w s))).
    cbn [next set_clock tick now sleeps] in Hk.
    assert (Hk' := Hk ltac:(lia) ltac:(rewrite H0, H1; lia) eq_refl).
    clear Hk.
    destruct (is_nonblank text) eqn:Hn.
    + destruct text as [t|]; [|discriminate].
      apply wp_ret. exact Hk'.
    + apply wp_bind, wp_time_time. cbn [next set_clock tick now sleeps].
      destruct (40000 <? now s + latency (w (tick s))
                         + latency (w (S (tick s))) - start_time)%N.
      * apply wp_ret. exact Hk'.
      * apply wp_bind, wp_asyncio_sleep. exact Hk'.
Qed.

End LateGst.

(** The GST loop on a page that answers as [d0], on which the element is
    absent or blank, during [k] cycles, and then as [d1], on which it
    has a text that is not blank. *)
Lemma poll_gst_late (w : World) (d0 d1 : Dom) (start_time : N) (v : string) :
  fault d0 = None -> fault d1 = None ->
  gst_value (gst_no_strong d0) = None ->
  gst_value (gst_no_strong d1) = Some v ->
  forall k fuel s,
    k <= fuel ->
    (forall t, tick s <= t < tick s + k * probe_ops (gst_no_strong d0) ->
               w t = d0) ->
    (forall t, tick s + k * probe_ops (gst_no_strong d0) <= t
               < tick s + k * probe_ops (gst_no_strong d0) + 2 ->
               w t = d1) ->
    (start_time <= now s)%N ->
    (now s - start_time
     + N.of_nat k * cycle_ms (probe_ops (gst_no_strong d0)) d0 <= 40500)%N ->
    wp (poll_gst w (S fuel) start_time)
       (returns (fun r s' => r = v /\ sleeps s' = sleeps s + k)) s.
Proof.
  intros Q0 Q1 N0 V1.
  induction k as [|k IH]; intros fuel s Hf H0 H1 Hst Hc.
  - apply (poll_gst_cycle w d1 Q1).
    + intros t Ht. apply H1. unfold probe_ops in Ht.
      destruct (length (gst_no_strong d1) =? 0)%nat; lia.
    + intros s' _ _ Z. rewrite V1. cbn [returns]. split; [reflexivity | lia].
  - destruct fuel as [|fuel]; [lia|].
    rewrite Nat2N.inj_succ in Hc. unfold cycle_ms in Hc, IH.
    apply (poll_gst_cycle w d0 Q0).
    + intros t Ht. apply H0. lia.
    + intros s' T' C' Z'. rewrite N0.
      destruct (N.ltb_spec 40000 (now s' - start_time)) as [Hlt|Hge];
        [exfalso; lia|].
      eapply wp_mono.
      * apply (IH fuel); cbn [set_clock tick now sleeps]; [lia| | |lia|lia].
        -- intros t Ht. apply H0. lia.
        -- intros t Ht. apply H1. lia.
      * intros [r| |] s''; cbn [returns set_clock sleeps]; try tauto.
        intros [-> Z]. split; [reflexivity | lia].
Qed.

(** While the element is absent the GST loop makes one query per cycle,
    sleeps between two cycles, and stops in the first cycle in which
    more than forty seconds have passed. *)
Lemma poll_gst_absent (w : World) (start_time : N) :
  quiet w -> (forall t, gst_no_strong (w t) = []) ->
  forall fuel s,
    (start_time <= now s)%N ->
    (40000 < now s - start_time + 500 * N.of_nat fuel)%N ->
    wp (poll_gst w (S fuel) start_time)
       (returns (fun r s' =>
          r = "--"
          /\ (40000 < now s' - start_time)%N
          /\ tick s' = tick s + S (sleeps s' - sleeps s)
          /\ sleeps s <= sleeps s'
          /\ (sleeps s' = sleeps s ->
              now s' = (now s + latency (w (tick s)))%N)
          /\ (sleeps s < sleeps s' ->
              (now s' - latency (w (pred (tick s'))) - 500 - start_time
               <= 40000)%N)))
       s.
Proof.
  intros Hq Habs.
  induction fuel as [|fuel IH]; intros s Hst Hf;
    (apply (poll_gst_cycle w (w (tick s)) (Hq _));
     [ rewrite Habs; intros t Ht; cbn in Ht; f_equal; lia | ]);
    rewrite Habs; cbn [probe_ops length Nat.eqb gst_value];
    intros s' T' C' Z';
    (destruct (N.ltb_spec 40000 (now s' - start_time)) as [Hlt|Hge];
     [ cbn [returns]; repeat split; try lia | ]).
  - exfalso. cbn in Hf. lia.
  - rewrite Nat2N.inj_succ in Hf.
    eapply wp_mono.
    + apply IH; cbn [set_clock now]; lia.
    + intros [r| |] s''; cbn [returns set_clock tick sleeps now]; try tauto.
      intros [-> [L [T [Z [F P]]]]]. repeat split; try lia.
      intros _.
      destruct (Nat.eq_dec (sleeps s'') (S (sleeps s'))) as [E|E].
      * rewrite (F E).
        replace (pred (tick s'')) with (tick s') by lia. lia.
      * apply P. lia.
Qed.

(** The claim of C10 as worded fails: a GST No. that shows a blank is
    present with a text that is not empty, yet the loop does not take
    it; it polls on through the forty seconds, 57 sleeps on this page,
    and gives "--". *)
Lemma blank_gst_text_not_accepted :
  claimed_gst_value (gst_no_strong company_empty) = Some " "
  /\ fst (resolve_gst (still company_empty) fresh) = Ok "--"
  /\ sleeps (snd (resolve_gst (still company_empty) fresh)) = 57.
Proof. vm_compute. repeat split. Qed.

(** C10, amended.  The GST No. loop looks at the element in every cycle
    and ends in the first cycle in which the element is present with a
    text that is not blank (not empty once trimmed), taking that text as
    the value, "--" included, where a two-source field takes "--" for no
    value: at once on a page that shows such a text, and after [k]
    sleeps when the element is absent or blank during the [k] cycles
    before.  When the element is absent from the page throughout, the
    loop makes one query per cycle, sleeps between two cycles, and gives
    "--" in the first cycle that finds more than forty seconds gone. *)
Theorem gst_no_resolution (w : World) (s : Sys) :
  (forall d fuel start_time text rest v,
     fault d = None -> shows w s 2 d ->
     gst_no_strong d = text :: rest -> text = Some v ->
     is_nonblank text = true ->
     exists s', poll_gst w (S fuel) start_time s = (Ok v, s')
                /\ sleeps s' = sleeps s)
  /\ (forall d rest,
        fault d = None -> shows w s 2 d ->
        gst_no_strong d = Some "--" :: rest ->
        exists s', resolve_gst w s = (Ok "--", s') /\ sleeps s' = sleeps s)
  /\ source_value [Some "--"] = None
  /\ (forall d0 d1 k v,
        fault d0 = None -> fault d1 = None ->
        gst_value (gst_no_strong d0) = None ->
        gst_value (gst_no_strong d1) = Some v ->
        (forall t, tick s <= t < tick s + k * probe_ops (gst_no_strong d0) ->
                   w t = d0) ->
        (forall t, tick s + k * probe_ops (gst_no_strong d0) <= t
                   < tick s + k * probe_ops (gst_no_strong d0) + 2 ->
                   w t = d1) ->
        (N.of_nat k * cycle_ms (probe_ops (gst_no_strong d0)) d0
         <= 40500)%N ->
        exists s', resolve_gst w s = (Ok v, s') /\ sleeps s' = sleeps s + k)
  /\ (quiet w -> (forall t, gst_no_strong (w t) = []) ->
      exists s', resolve_gst w s = (Ok "--", s')
                 /\ (40000 < now s' - now s)%N
                 /\ tick s' = tick s + S (sleeps s' - sleeps s)
                 /\ (sleeps s < sleeps s' ->
                     (now s' - latency (w (pred (tick s'))) - 500 - now s
                      <= 40000)%N)).
Proof.
  split; [|split; [|split; [|split]]].
  - intros d fuel start_time text rest v Hq Hs Hloc Hv Hn.
    destruct (wp_returns _ _ _
                (poll_gst_shows w d Hq fuel start_time s text rest v
                   Hs Hloc Hv Hn))
      as [r [s' [E [-> [Hz _]]]]].
    now exists s'.
  - intros d rest Hq Hs Hloc.
    destruct (wp_returns _ _ _
                (poll_gst_shows w d Hq 199 (now s) s (Some "--") rest "--"
                   Hs Hloc eq_refl eq_refl))
      as [r [s' [E [-> [Hz _]]]]].
    now exists s'.
  - reflexivity.
  - intros d0 d1 k v Q0 Q1 N0 V1 H0 H1 Hc.
    assert (H : wp (resolve_gst w)
                  (returns (fun r s' => r = v /\ sleeps s' = sleeps s + k)) s).
    { unfold resolve_gst. apply wp_bind, wp_time_time.
      change poll_fuel with (S 199).
      apply (poll_gst_late w d0 d1 (now s) v Q0 Q1 N0 V1 k 199 s);
        try assumption; [|lia|lia].
      exact (cycle_ms_fuel _ _ _ Hc). }
    destruct (wp_returns _ _ _ H) as [r [s' [E [-> Hz]]]].
    now exists s'.
  - intros Hq Habs.
    assert (H : wp (resolve_gst w)
                  (returns (fun r s' =>
                     r = "--"
                     /\ (40000 < now s' - now s)%N
                     /\ tick s' = tick s + S (sleeps s' - sleeps s)
                     /\ (sleeps s < sleeps s' ->
                         (now s' - latency (w (pred (tick s'))) - 500 - now s
                          <= 40000)%N))) s).
    { unfold resolve_gst. apply wp_bind, wp_time_time.
      change poll_fuel with (S 199).
      eapply wp_mono;
        [apply (poll_gst_absent w (now s) Hq Habs 199 s); [lia | cbn; lia]|].
      intros [r| |] s'; cbn [returns]; tauto. }
    destruct (wp_returns _ _ _ H) as [r [s' [E [-> Hz]]]].
    now exists s'.
Qed.

Lemma gst_no_resolution_witness :
  (exists s', resolve_gst (still loading_page) fresh = (Ok "--", s')
              /\ (40000 < now s' - now fresh)%N
              /\ tick s' = tick fresh + S (sleeps s' - sleeps fresh)
              /\ (sleeps fresh < sleeps s' ->
                  (now s' - latency (still loading_page (pred (tick s')))
                   - 500 - now fresh <= 40000)%N))
  /\ (exists s', resolve_gst (turns 3 loading_page registered_page) fresh
                 = (Ok "21AAACA1234F1Z5", s')
                 /\ sleeps s' = sleeps fresh + 3).
Proof.
  split.
  - refine (proj2 (proj2 (proj2 (proj2
              (gst_no_resolution (still loading_page) fresh)))) _ _).
    + intros t. reflexivity.
    + intros t. reflexivity.
  - refine (proj1 (proj2 (proj2 (proj2
              (gst_no_resolution (turns 3 loading_page registered_page) fresh))))
              loading_page registered_page 3 "21AAACA1234F1Z5" _ _ _ _ _ _ _).
    + reflexivity.
    + reflexivity.
    + reflexivity.
    + reflexivity.
    + intros t Ht. cbn in Ht.
      unfold turns. destruct (Nat.ltb_spec t 3); [reflexivity | lia].
    + intros t Ht. cbn in Ht.
      unfold turns. destruct (Nat.ltb_spec t 3); [lia | reflexivity].
    + vm_compute. discriminate.
Defined.

(** ** The orchestration loop *)

Lemma wp_bind_if_returns {A B} (m : M A) (k : A -> M B)
    (Q : B -> Sys -> Prop) s :
  (forall a s1, wp (k a) (if_returns Q) s1) ->
  wp (bind m k) (if_returns Q) s.
Proof.
  intros H. apply wp_bind. apply wp_intro.
  intros [a|e|] s1 _; simpl; auto.
Qed.

Lemma wp_bind_with {A B} (m : M A) (k : A -> M B) (P : A -> Sys -> Prop)
    (Q : B -> Sys -> Prop) s :
  wp m (if_returns P) s ->
  (forall a s1, P a s1 -> wp (k a) (if_returns Q) s1) ->
  wp (bind m k) (if_returns Q) s.
Proof.
  intros Hm Hk. apply wp_bind. eapply wp_mono; [exact Hm|].
  intros [a|e|] s1; simpl; auto.
Qed.

Lemma truthy_nonempty (t : string) : PyStr.truthy t = true -> t <> "".
Proof.
  unfold PyStr.truthy. intros H ->. discriminate.
Qed.

Section Orchestration.

Variable w : World.

(** The detail view fills the five columns in order. *)
Lemma scrape_detail_shape index s :
  wp (scrape_detail w index)
     (if_returns (fun r _ =>
        let '(details, promoter_name_text, address_text) := r in
        exists project_name rera gst,
          details = record_of project_name rera promoter_name_text
                      address_text gst))
     s.
Proof.
  unfold scrape_detail.
  repeat (apply wp_bind_if_returns; intros).
  apply wp_ret. simpl. do 3 eexists. reflexivity.
Qed.

(** The completeness check appends a record with both fields trimmed
    and not empty, or appends nothing. *)
Lemma validate_and_append_shape name project_name rera promoter address gst
    data s :
  wp (validate_and_append name
        (record_of project_name rera promoter address gst)
        promoter address data)
     (returns (fun data' _ =>
        data' = data
        \/ exists r, data' = (data ++ [r])%list /\ accumulated r))
     s.
Proof.
  unfold validate_and_append.
  set (p := if PyStr.truthy promoter then PyStr.strip promoter else "--").
  set (a := if PyStr.truthy address then PyStr.strip address else "--").
  destruct (PyStr.truthy p) eqn:Hp; destruct (PyStr.truthy a) eqn:Ha;
    simpl; try (apply wp_bind, wp_logging; intros; apply wp_ret; now left).
  apply wp_bind, wp_logging; intros; apply wp_ret. simpl. right.
  exists (record_of project_name rera p a gst). split; [reflexivity|].
  exists project_name, rera, p, a, gst.
  repeat split; now apply truthy_nonempty.
Qed.

(** A scan of the cards appends at most one record.  It leaves the
    cursor where it was, except when the navigation failed: then the
    error has just been logged, the cursor is one further, and no record
    was appended. *)
Lemma scan_cards_step cards name index data s :
  wp (scan_cards w cards name index data)
     (if_returns (fun r s' =>
        let '(found, index', data') := r in
        one_more data data'
        /\ (index' = index
            \/ (index' = index + 1 /\ found = true /\ data' = data
                /\ exists l e,
                     log s' = (l ++ [NavigationError name e])%list))))
     s.
Proof.
  revert s. induction cards as [|card rest IH]; intros s; cbn [scan_cards].
  - apply wp_ret. simpl. split; [now left | now left].
  - apply wp_bind_if_returns. intros [name'|] s1; [|apply IH].
    destruct (name' =? name); [|apply IH].
    apply wp_bind_if_returns. intros btns s2.
    destruct (btns =? 0)%nat; [apply IH|].
    apply wp_bind_if_returns. intros [e|] s3.
    + apply wp_bind, wp_logging. intros s4 Hlog _ _ _ _.
      apply wp_ret. simpl. split; [now left|].
      right. repeat split. now exists (log s3), e.
    + apply wp_bind_if_returns. intros _ s4.
      eapply wp_bind_with; [apply scrape_detail_shape|].
      intros [[details p] a] s5 [pn [rr [g ->]]].
      eapply wp_bind_with.
      { eapply wp_mono; [apply validate_and_append_shape|].
        intros [d'| |] s6; simpl; try tauto. intros H; exact H. }
      intros data' s6 Hd. apply wp_ret. simpl. split; [exact Hd | now left].
Qed.

(** One pass of the loop either breaks with the state untouched, or
    continues with at most one more record and the cursor one further;
    after a navigation failure, logged last, the cursor is two further. *)
Lemma loop_body_step st s :
  wp (loop_body w st)
     (if_returns (fun c s' =>
        match c with
        | Break st' => st' = st
        | Continue st' =>
            one_more (project_data st) (project_data st')
            /\ (project_names_index st' = project_names_index st + 1
                \/ (project_names_index st' = project_names_index st + 2
                    /\ project_data st' = project_data st
                    /\ exists l name e,
                         log s' = (l ++ [NavigationError name e])%list))
        end))
     s.
Proof.
  unfold loop_body.
  apply wp_bind_if_returns. intros [names|] s1; [|now apply wp_ret].
  destruct (nth_error names (project_names_index st)) as [name|];
    [|now apply wp_raise].
  do 5 (apply wp_bind_if_returns; intros).
  eapply wp_bind_with; [apply scan_cards_step|].
  intros [[found index] data] s' [Hd Hi].
  destruct Hi as [->|[-> [-> [-> [l [e Hl]]]]]].
  - apply wp_bind_if_returns. intros _ s''.
    apply wp_ret. simpl. split; [exact Hd | now left].
  - apply wp_bind, wp_ret, wp_ret. simpl. split; [exact Hd|].
    right. repeat split; [lia|]. now exists l, name, e.
Qed.

Lemma main_loop_inv passes :
  forall st s,
    loop_inv st ->
    wp (main_loop w passes st)
       (if_returns (fun r _ => loop_inv (snd r))) s.
Proof.
  induction passes as [|passes IH]; intros st s Hinv; cbn [main_loop];
    destruct (Nat.ltb_spec (length (project_data st)) target_count)
      as [Hlt|Hge];
    try (apply wp_ret; exact Hinv).
  eapply wp_bind_with; [apply loop_body_step|].
  intros [st'|st'] s1 Hc.
  - apply IH. destruct Hinv as [Hall Hlen]. unfold loop_inv.
    destruct Hc as [Hc _].
    destruct Hc as [E|[r [E Hr]]]; rewrite E.
    + now split.
    + split.
      * apply Forall_app. split; [exact Hall | now constructor].
      * rewrite length_app. simpl. lia.
  - subst st'. apply wp_ret. exact Hinv.
Qed.

Lemma main_loop_from_start passes names s status st s' :
  main_loop w passes (start names) s = (Ok (status, st), s') ->
  loop_inv st.
Proof.
  intros E.
  assert (H0 : loop_inv (start names)).
  { split; [constructor | unfold target_count; simpl; lia]. }
  exact (wp_elim _ _ _ _ _ (main_loop_inv passes (start names) s H0) E).
Qed.

End Orchestration.

(** The cursor after a pass that continues: one further, or two further
    when the pass ended on a navigation failure. *)
Lemma cursor_after_pass (w : World) (st st' : Loop) (s s' : Sys) :
  loop_body w st s = (Ok (Continue st'), s') ->
  project_names_index st' = project_names_index st + 1
  \/ (project_names_index st' = project_names_index st + 2
      /\ project_data st' = project_data st
      /\ exists l name e, log s' = (l ++ [NavigationError name e])%list).
Proof.
  intros E.
  exact (proj2 (wp_elim _ _ _ _ _ (loop_body_step w st s) E)).
Qed.

(** The row of an accumulated record: its five texts, [None] written
    empty. *)
Lemma row_of_record_of project_name rera_regd_no promoter_name address gst_no :
  row_of (record_of project_name rera_regd_no promoter_name address gst_no)
  = [match project_name with Some v => v | None => "" end;
     match rera_regd_no with Some v => v | None => "" end;
     promoter_name; address; gst_no].
Proof. reflexivity. Qed.

Lemma accumulated_complete (r : pydict) : accumulated r -> complete r.
Proof.
  intros [pn [rr [p [a [g [-> [Hp Ha]]]]]]].
  exists p, a. repeat split; assumption.
Qed.

(** ** The loop: the properties *)

Section Values.

Variable w : World.

Lemma probe_value (loc : locator) s :
  wp (probe w loc)
     (if_returns (fun r _ => forall v, r = Some v -> v <> "")) s.
Proof.
  unfold probe. apply wp_bind_if_returns. intros n s1.
  destruct (0 <? n)%nat; [|apply wp_ret; simpl; discriminate].
  apply wp_bind_if_returns. intros [text|] s2; apply wp_ret; simpl;
    [|discriminate].
  destruct (PyStr.truthy text) eqn:Ht; simpl; [|discriminate].
  destruct (negb (PyStr.strip text =? "--")); [|discriminate].
  intros v Hv. inversion Hv; subst. now apply truthy_nonempty.
Qed.

(** The text of a two-source field is never the empty string. *)
Lemma poll_sources_value fuel first second start_time :
  forall s,
    wp (poll_sources w fuel first second start_time)
       (if_returns (fun r _ => r <> "")) s.
Proof.
  induction fuel as [|fuel IH]; intros s; cbn [poll_sources].
  - now apply wp_out_of_fuel.
  - eapply wp_bind_with; [apply probe_value|].
    intros [v1|] s1 H1; [apply wp_ret; simpl; now apply H1|].
    eapply wp_bind_with; [apply probe_value|].
    intros [v2|] s2 H2; [apply wp_ret; simpl; now apply H2|].
    apply wp_bind_if_returns. intros [|] s3; [now apply wp_ret|].
    apply wp_bind_if_returns. intros t s4.
    destruct (40000 <? t - start_time)%N; [now apply wp_ret|].
    apply wp_bind_if_returns. intros _ s5. apply IH.
Qed.

End Values.

(** C2.  Every record in the accumulated sequence, at each head of the
    loop and at its exit, has a Promoter Name and an Address that are not
    the empty string.  A candidate whose promoter text or address text
    is blank (nothing but white space) is logged as skipped and the
    accumulated sequence is left as it was; the texts that reach this
    check are never the empty string itself. *)
Theorem accumulated_records_complete (w : World) :
  (forall passes names s status st s',
     main_loop w passes (start names) s = (Ok (status, st), s') ->
     Forall complete (project_data st))
  /\ (forall name details promoter address data s,
        (promoter <> "" /\ PyStr.strip promoter = "")
        \/ (address <> "" /\ PyStr.strip address = "") ->
        exists s',
          validate_and_append name details promoter address data s
          = (Ok data, s')
          /\ log s' = (log s ++ [SkippingBlank name])%list)
  /\ (forall first second s text s',
        resolve_sources w first second s = (Ok text, s') -> text <> "").
Proof.
  repeat split.
  - intros passes names s status st s' E.
    destruct (main_loop_from_start w passes names s status st s' E) as [H _].
    eapply Forall_impl; [|exact H]. exact accumulated_complete.
  - intros name details promoter address data s H.
    unfold validate_and_append.
    assert (Hb : negb (PyStr.truthy
                   (if PyStr.truthy promoter then PyStr.strip promoter
                    else "--"))
                 || negb (PyStr.truthy
                      (if PyStr.truthy address then PyStr.strip address
                       else "--")) = true).
    { apply orb_true_iff.
      destruct H as [[Hne Hs]|[Hne Hs]]; [left|right];
        apply String.eqb_neq in Hne; unfold PyStr.truthy at 2;
        rewrite Hne, Hs; reflexivity. }
    rewrite Hb. eexists. split; reflexivity.
  - intros first second s text s' E.
    pose proof (poll_sources_value w poll_fuel first second (now s) s) as H.
    exact (wp_elim _ _ _ _ _ H E).
Qed.

Lemma accumulated_records_complete_witness :
  exists st s',
    main_loop (still acme_page) 4 (start ["Alpha Residency"; "Beta Towers"])
      fresh = (Ok (Exited, st), s')
    /\ Forall complete (project_data st).
Proof.
  do 2 eexists. split; [vm_compute; reflexivity|].
  eapply (proj1 (accumulated_records_complete (still acme_page))
            4 ["Alpha Residency"; "Beta Towers"] fresh Exited).
  vm_compute. reflexivity.
Defined.

(** C3.  At every head of the orchestration loop and at its exit, in
    every run, the accumulated sequence holds at most six records. *)
Theorem at_most_target_count (w : World) (passes : nat) (names : list string)
    (s : Sys) (status : status) (st : Loop) (s' : Sys) :
  main_loop w passes (start names) s = (Ok (status, st), s') ->
  length (project_data st) <= 6.
Proof.
  intros E.
  destruct (main_loop_from_start w passes names s status st s' E) as [_ H].
  exact H.
Qed.

Lemma at_most_target_count_witness :
  exists st s',
    main_loop (still acme_page) 4 (start ["Alpha Residency"; "Beta Towers"])
      fresh = (Ok (Exited, st), s')
    /\ length (project_data st) <= 6.
Proof.
  do 2 eexists. split; [vm_compute; reflexivity|].
  eapply (at_most_target_count (still acme_page) 4
            ["Alpha Residency"; "Beta Towers"] fresh Exited).
  vm_compute. reflexivity.
Defined.

(** C7.  When the cursor has outrun the known names with fewer than six
    records accumulated, and the reloaded list enumerates no entry
    beyond the cursor, the pass breaks out of the loop: the run leaves
    the loop at once, whatever the number of passes still allowed, with
    the loop state, and so the accumulated records, as they were. *)
Theorem no_growth_ends_run (w : World) (passes : nat) (st : Loop) (s : Sys)
    (project_names_new : list string) (s1 : Sys) :
  length (project_data st) < target_count ->
  length (project_names st) <= project_names_index st ->
  reenumerate w s = (Ok project_names_new, s1) ->
  length project_names_new <= project_names_index st ->
  exists s',
    main_loop w (S passes) st s = (Ok (Exited, st), s')
    /\ log s' = (log s1 ++ [NoMoreProjects])%list.
Proof.
  intros Hlt Hend Hre Hnew.
  apply Nat.ltb_lt in Hlt. apply Nat.leb_le in Hend, Hnew.
  cbn [main_loop]. rewrite Hlt.
  unfold loop_body, extend_project_names, bind at 1 2 3.
  rewrite Hend, Hre, Hnew.
  eexists. split; reflexivity.
Qed.

Lemma no_growth_ends_run_witness :
  exists s',
    main_loop (still acme_page) 1
      {| project_names := ["Alpha Residency"; "Beta Towers"; "Gamma Heights"];
         project_names_index := 3;
         project_data := [] |} fresh
    = (Ok (Exited,
           {| project_names :=
                ["Alpha Residency"; "Beta Towers"; "Gamma Heights"];
              project_names_index := 3;
              project_data := [] |}), s')
    /\ log s' = [NoMoreProjects].
Proof.
  destruct (no_growth_ends_run (still acme_page) 0
              {| project_names :=
                   ["Alpha Residency"; "Beta Towers"; "Gamma Heights"];
                 project_names_index := 3;
                 project_data := [] |} fresh
              ["Alpha Residency"; "Beta Towers"; "Gamma Heights"]
              (snd (reenumerate (still acme_page) fresh)))
    as [s' [E L]].
  - unfold target_count. simpl. lia.
  - simpl. lia.
  - vm_compute. reflexivity.
  - simpl. lia.
  - exists s'. split; [exact E | exact L].
Defined.

(** ** The cursor after a navigation failure *)

(** C1 fails on the code: when the click on "View Details" raises, line
    160 advances the cursor, the [break] of line 162 leaves the [for]
    loop only, and line 316 advances the cursor again.  Here the click
    for the first of three candidates times out: the pass ends with the
    cursor at 2, and the run never opens "Beta Towers". *)
Theorem navigation_failure_advances_twice :
  (exists s',
     loop_body click_times_out
       (start ["Alpha Residency"; "Beta Towers"; "Gamma Heights"]) fresh
     = (Ok (Continue
              {| project_names :=
                   ["Alpha Residency"; "Beta Towers"; "Gamma Heights"];
                 project_names_index := 2;
                 project_data := [] |}), s')
     /\ log s' = [NavigationError "Alpha Residency" TimeoutError])
  /\ (exists st s',
        main_loop click_times_out 5
          (start ["Alpha Residency"; "Beta Towers"; "Gamma Heights"]) fresh
        = (Ok (Exited, st), s')
        /\ log s' = [NavigationError "Alpha Residency" TimeoutError;
                     ExtractedData "Gamma Heights"; NoMoreProjects]
        /\ length (project_data st) = 1).
Proof.
  split.
  - eexists. split; vm_compute; reflexivity.
  - do 2 eexists. split; [vm_compute; reflexivity|].
    split; reflexivity.
Qed.

(** The same slip when the failing candidate is the last known one: the
    cursor ends one past the end of [project_names], the extension of
    lines 113-117 appends the names from the cursor on, and line 121
    indexes past the end of the list. *)
Example navigation_failure_on_last_candidate :
  fst (main_loop click_times_out 5 (start ["Alpha Residency"]) fresh)
  = Raise IndexError.
Proof. vm_compute. reflexivity. Qed.

(** * Further properties *)

(** ** The polling loops are bounded *)

Lemma wp_conj {A} (m : M A) (Q1 Q2 : result A -> Sys -> Prop) s :
  wp m Q1 s -> wp m Q2 s -> wp m (fun r s' => Q1 r s' /\ Q2 r s') s.
Proof. unfold wp. now split. Qed.

Lemma wp_calm {A} (m : M A) s :
  calm m ->
  wp m (fun r s' => in_time r /\ sleeps s' = sleeps s
                    /\ (now s <= now s')%N) s.
Proof. intros H. exact (H s). Qed.

Section Bounds.

Variable w : World.

Lemma await_calm {A} (op : Dom -> result A) :
  (forall d, in_time (op d)) -> calm (await w op).
Proof.
  intros Hop s. unfold await.
  destruct (fault (w (tick s))); simpl; repeat split;
    try discriminate; try apply Hop; lia.
Qed.

Lemma ret_calm {A} (a : A) : calm (ret a).
Proof. intros s. simpl. repeat split; [discriminate | lia]. Qed.

Lemma bind_calm {A B} (m : M A) (k : A -> M B) :
  calm m -> (forall a, calm (k a)) -> calm (bind m k).
Proof.
  intros Hm Hk s. unfold bind.
  destruct (Hm s) as [H1 [H2 H3]].
  destruct (m s) as [[a|e|] s1]; simpl in *.
  - destruct (Hk a s1) as [K1 [K2 K3]]. repeat split; [exact K1 | lia | lia].
  - repeat split; [discriminate | lia | lia].
  - now elim H1.
Qed.

Lemma count_calm loc : calm (count w loc).
Proof. apply await_calm. discriminate. Qed.

Lemma first_text_content_calm loc : calm (first_text_content w loc).
Proof. apply await_calm. intros d. destruct (loc d); discriminate. Qed.

Lemma text_content_calm loc : calm (text_content w loc).
Proof.
  apply await_calm. intros d. destruct (loc d) as [|t [|]]; discriminate.
Qed.

Lemma probe_calm loc : calm (probe w loc).
Proof.
  unfold probe. apply bind_calm; [apply count_calm|]. intros n.
  destruct (0 <? n)%nat; [|apply ret_calm].
  apply bind_calm; [apply first_text_content_calm|]. intros t. apply ret_calm.
Qed.

Lemma both_absent_calm first second : calm (both_absent w first second).
Proof.
  unfold both_absent. apply bind_calm; [apply count_calm|]. intros n.
  destruct (n =? 0)%nat; [|apply ret_calm].
  apply bind_calm; [apply count_calm|]. intros n2. apply ret_calm.
Qed.

Lemma wp_bind_calm {A B} (m : M A) (k : A -> M B)
    (Q : result B -> Sys -> Prop) s :
  calm m ->
  (forall e s1, sleeps s1 = sleeps s -> (now s <= now s1)%N ->
                Q (Raise e) s1) ->
  (forall a s1, sleeps s1 = sleeps s -> (now s <= now s1)%N ->
                wp (k a) Q s1) ->
  wp (bind m k) Q s.
Proof.
  intros Hm He Hk. apply wp_bind. eapply wp_mono; [apply wp_calm, Hm|].
  intros [a|e|] s1 [H1 [H2 H3]]; auto. now elim H1.
Qed.

(** The loop of a single-source field: [n] half seconds are enough to
    reach the sixty seconds, so the loop sleeps at most [n] times. *)
Lemma wait_while_placeholder_sleeps loc start_time fuel :
  forall n s,
    n <= fuel ->
    (start_time <= now s)%N ->
    (60000 <= now s - start_time + 500 * N.of_nat n)%N ->
    wp (wait_while_placeholder w (S fuel) loc start_time)
       (fun r s' => slept_at_most n s r s' /\ (now s <= now s')%N) s.
Proof.
  unfold slept_at_most.
  induction fuel as [|fuel IH]; intros n s Hn Hst Hf;
    cbn [wait_while_placeholder];
    (apply wp_bind_calm; [apply text_content_calm | |]);
    try (intros e s1 Hz Hc; repeat split; [discriminate | lia | lia | lia]);
    intros text s1 Hz Hc;
    (destruct (is_placeholder text);
     [|apply wp_ret; repeat split; [discriminate | lia | lia | lia]]);
    apply wp_bind, wp_time_time;
    (destruct (N.ltb_spec (now s1 - start_time) 60000) as [Hlt|Hge];
     [|apply wp_ret; repeat split; [discriminate | lia | lia | lia]]).
  - exfalso. assert (n = 0) by lia. subst n. simpl in Hf. lia.
  - destruct n as [|n]; [exfalso; simpl in Hf; lia|].
    rewrite Nat2N.inj_succ in Hf.
    apply wp_bind, wp_asyncio_sleep.
    eapply wp_mono.
    { apply (IH n); [lia | cbn [set_clock now]; lia | cbn [set_clock now]; lia]. }
    cbn [set_clock now sleeps].
    intros r s' [[H1 H2] H3]. repeat split; [exact H1 | lia | lia | lia].
Qed.

Lemma poll_sources_sleeps first second start_time fuel :
  forall n s,
    n <= fuel ->
    (start_time <= now s)%N ->
    (40000 < now s - start_time + 500 * N.of_nat n)%N ->
    wp (poll_sources w (S fuel) first second start_time)
       (fun r s' => slept_at_most n s r s') s.
Proof.
  unfold slept_at_most.
  induction fuel as [|fuel IH]; intros n s Hn Hst Hf;
    cbn [poll_sources];
    (apply wp_bind_calm; [apply probe_calm | |]);
    try (intros e s1 Hz Hc; repeat split; [discriminate | lia | lia]);
    intros [v1|] s1 Hz1 Hc1;
    try (apply wp_ret; repeat split; [discriminate | lia | lia]);
    (apply wp_bind_calm; [apply probe_calm | |]);
    try (intros e s2 Hz Hc; repeat split; [discriminate | lia | lia]);
    intros [v2|] s2 Hz2 Hc2;
    try (apply wp_ret; repeat split; [discriminate | lia | lia]);
    (apply wp_bind_calm; [apply both_absent_calm | |]);
    try (intros e s3 Hz Hc; repeat split; [discriminate | lia | lia]);
    intros [|] s3 Hz3 Hc3;
    try (apply wp_ret; repeat split; [discriminate | lia | lia]);
    apply wp_bind, wp_time_time;
    (destruct (N.ltb_spec 40000 (now s3 - start_time)) as [Hlt|Hge];
     [apply wp_ret; repeat split; [discriminate | lia | lia]|]).
  - exfalso. assert (n = 0) by lia. subst n. simpl in Hf. lia.
  - destruct n as [|n]; [exfalso; simpl in Hf; lia|].
    rewrite Nat2N.inj_succ in Hf.
    apply wp_bind, wp_asyncio_sleep.
    eapply wp_mono.
    { apply (IH n); [lia | cbn [set_clock now]; lia | cbn [set_clock now]; lia]. }
    cbn [set_clock now sleeps].
    intros r s' [H1 H2]. repeat split; [exact H1 | lia | lia].
Qed.

Lemma poll_gst_sleeps start_time fuel :
  forall n s,
    n <= fuel ->
    (start_time <= now s)%N ->
    (40000 < now s - start_time + 500 * N.of_nat n)%N ->
    wp (poll_gst w (S fuel) start_time)
       (fun r s' => slept_at_most n s r s') s.
Proof.
  unfold slept_at_most.
  induction fuel as [|fuel IH]; intros n s Hn Hst Hf;
    cbn [poll_gst];
    (apply wp_bind_calm; [apply count_calm | |]);
    try (intros e s1 Hz Hc; repeat split; [discriminate | lia | lia]);
    intros k s1 Hz1 Hc1;
    (apply wp_bind_calm;
     [ destruct (0 <? k)%nat;
       [ apply bind_calm; [apply first_text_content_calm|];
         intros t; apply ret_calm
       | apply ret_calm ]
     | | ]);
    try (intros e s2 Hz Hc; repeat split; [discriminate | lia | lia]);
    intros [v|] s2 Hz2 Hc2;
    try (apply wp_ret; repeat split; [discriminate | lia | lia]);
    apply wp_bind, wp_time_time;
    (destruct (N.ltb_spec 40000 (now s2 - start_time)) as [Hlt|Hge];
     [apply wp_ret; repeat split; [discriminate | lia | lia]|]).
  - exfalso. assert (n = 0) by lia. subst n. simpl in Hf. lia.
  - destruct n as [|n]; [exfalso; simpl in Hf; lia|].
    rewrite Nat2N.inj_succ in Hf.
    apply wp_bind, wp_asyncio_sleep.
    eapply wp_mono.
    { apply (IH n); [lia | cbn [set_clock now]; lia | cbn [set_clock now]; lia]. }
    cbn [set_clock now sleeps].
    intros r s' [H1 H2]. repeat split; [exact H1 | lia | lia].
Qed.

End Bounds.

(** X1.  Whatever the page does, errors included, the resolution of a
    single-source field (Project Name, RERA Regd. No.) sleeps at most
    120 times, that of a two-source field (Promoter Name, Address) at
    most 81 times and that of GST No. at most 81 times; none of them
    uses up the iterations the model grants its loop. *)
Theorem field_resolution_sleeps (w : World) (s : Sys) :
  (forall loc,
     fst (resolve_field w loc s) <> OutOfFuel
     /\ sleeps s <= sleeps (snd (resolve_field w loc s)) <= sleeps s + 120)
  /\ (forall first second,
        fst (resolve_sources w first second s) <> OutOfFuel
        /\ sleeps s <= sleeps (snd (resolve_sources w first second s))
           <= sleeps s + 81)
  /\ (fst (resolve_gst w s) <> OutOfFuel
      /\ sleeps s <= sleeps (snd (resolve_gst w s)) <= sleeps s + 81).
Proof.
  split; [|split].
  - intros loc.
    change (wp (resolve_field w loc) (slept_at_most 120 s) s).
    unfold resolve_field, slept_at_most.
    apply wp_bind_calm.
    { apply await_calm. intros d.
      destruct (loc d) as [|t [|]]; discriminate. }
    { intros e s1 Hz Hc. repeat split; [discriminate | lia | lia]. }
    intros [] s1 Hz1 Hc1.
    apply wp_bind, wp_time_time, wp_bind.
    eapply wp_mono.
    { apply (wait_while_placeholder_sleeps w loc (now s1) 199 120);
        [lia | lia | cbn; lia]. }
    intros [[]|e|] s2 [[H1 H2] H3];
      try (repeat split; [discriminate | lia | lia]); [|now elim H1].
    eapply wp_mono; [apply wp_calm, text_content_calm|].
    intros r s3 [K1 [K2 K3]]. repeat split; [exact K1 | lia | lia].
  - intros first second.
    change (wp (resolve_sources w first second) (slept_at_most 81 s) s).
    unfold resolve_sources. apply wp_bind, wp_time_time.
    apply (poll_sources_sleeps w first second (now s) 199 81);
      [lia | lia | cbn; lia].
  - change (wp (resolve_gst w) (slept_at_most 81 s) s).
    unfold resolve_gst. apply wp_bind, wp_time_time.
    apply (poll_gst_sleeps w (now s) 199 81); [lia | lia | cbn; lia].
Qed.

(** The bounds are reached on a page that answers at once and never
    renders the fields. *)
Example field_resolution_sleeps_reached :
  sleeps (snd (resolve_field (still (instant loading_page))
                 project_name_strong fresh)) = 120
  /\ sleeps (snd (resolve_gst (still (instant loading_page)) fresh)) = 81.
Proof. split; vm_compute; reflexivity. Qed.

(** ** The texts of the promoter tab *)

Section Texts.

Variable w : World.

Lemma probe_has_value (loc : locator) s :
  wp (probe w loc)
     (if_returns (fun r _ => forall v, r = Some v ->
                                       has_value (Some v) = true)) s.
Proof.
  unfold probe. apply wp_bind_if_returns. intros n s1.
  destruct (0 <? n)%nat; [|apply wp_ret; simpl; discriminate].
  apply wp_bind_if_returns. intros text s2. apply wp_ret. simpl.
  destruct (has_value text) eqn:Hv; [|discriminate].
  intros v ->. exact Hv.
Qed.

Lemma poll_sources_text fuel first second start_time :
  forall s,
    wp (poll_sources w fuel first second start_time)
       (if_returns (fun r _ => r = "--" \/ has_value (Some r) = true)) s.
Proof.
  induction fuel as [|fuel IH]; intros s; cbn [poll_sources].
  - now apply wp_out_of_fuel.
  - eapply wp_bind_with; [apply probe_has_value|].
    intros [v1|] s1 H1; [apply wp_ret; simpl; right; now apply H1|].
    eapply wp_bind_with; [apply probe_has_value|].
    intros [v2|] s2 H2; [apply wp_ret; simpl; right; now apply H2|].
    apply wp_bind_if_returns. intros [|] s3; [apply wp_ret; now left|].
    apply wp_bind_if_returns. intros t s4.
    destruct (40000 <? t - start_time)%N; [apply wp_ret; now left|].
    apply wp_bind_if_returns. intros _ s5. apply IH.
Qed.

Lemma poll_gst_text fuel start_time :
  forall s,
    wp (poll_gst w fuel start_time)
       (if_returns (fun r _ => is_nonblank (Some r) = true)) s.
Proof.
  induction fuel as [|fuel IH]; intros s; cbn [poll_gst].
  - now apply wp_out_of_fuel.
  - apply wp_bind_if_returns. intros n s1.
    eapply (wp_bind_with _ _
              (fun r _ => forall v, r = Some v -> is_nonblank (Some v) = true)).
    { destruct (0 <? n)%nat; [|apply wp_ret; simpl; discriminate].
      apply wp_bind_if_returns. intros text s2. apply wp_ret. simpl.
      destruct (is_nonblank text) eqn:Hv; [|discriminate].
      intros v ->. exact Hv. }
    intros [v|] s2 Hv; [apply wp_ret; simpl; now apply Hv|].
    apply wp_bind_if_returns. intros t s3.
    destruct (40000 <? t - start_time)%N; [apply wp_ret; reflexivity|].
    apply wp_bind_if_returns. intros _ s4. apply IH.
Qed.

End Texts.

(** X2.  Whatever the page does, a two-source field that resolves gives
    "--" or a text that is not empty and is not "--" once trimmed, and
    GST No. gives a text that is not blank: "--" when nothing was found,
    never the empty string or white space alone. *)
Theorem resolved_texts (w : World) (s : Sys) :
  (forall first second text s',
     resolve_sources w first second s = (Ok text, s') ->
     text = "--"
     \/ (text <> "" /\ PyStr.strip text <> "--"))
  /\ (forall text s',
        resolve_gst w s = (Ok text, s') ->
        text <> "" /\ PyStr.strip text <> "").
Proof.
  split.
  - intros first second text s' E.
    pose proof (poll_sources_text w poll_fuel first second (now s) s) as H.
    destruct (wp_elim _ _ _ _ _ H E) as [->|Hv]; [now left|right].
    simpl in Hv. apply andb_true_iff in Hv. destruct Hv as [H1 H2].
    split; [now apply truthy_nonempty|].
    apply negb_true_iff, String.eqb_neq in H2. exact H2.
  - intros text s' E.
    pose proof (poll_gst_text w poll_fuel (now s) s) as H.
    pose proof (wp_elim _ _ _ _ _ H E) as Hv.
    simpl in Hv. apply andb_true_iff in Hv. destruct Hv as [H1 H2].
    split; [now apply truthy_nonempty|].
    apply negb_true_iff, String.eqb_neq in H2. exact H2.
Qed.

Lemma resolved_texts_witness :
  exists text s',
    resolve_sources (still acme_page) company_name_strong
      propietory_name_strong fresh = (Ok text, s')
    /\ (text = "--" \/ (text <> "" /\ PyStr.strip text <> "--")).
Proof.
  do 2 eexists. split; [vm_compute; reflexivity|].
  eapply (proj1 (resolved_texts (still acme_page) fresh)
            company_name_strong propietory_name_strong).
  vm_compute. reflexivity.
Defined.

(** ** Trimmed texts *)

Section Strip.

Lemma rstrip_rstrip (s : string) :
  PyStr.rstrip (PyStr.rstrip s) = PyStr.rstrip s.
Proof.
  induction s as [|c s IH]; [reflexivity|].
  cbn [PyStr.rstrip].
  destruct (PyStr.rstrip s) as [|c' r] eqn:E.
  - destruct (PyStr.is_space c) eqn:Hc; [reflexivity|].
    cbn [PyStr.rstrip]. now rewrite Hc.
  - cbn [PyStr.rstrip] in *. now rewrite IH.
Qed.

Lemma lstrip_head (s : string) :
  match PyStr.lstrip s with
  | EmptyString => True
  | String c _ => PyStr.is_space c = false
  end.
Proof.
  induction s as [|c s IH]; [exact I|].
  cbn [PyStr.lstrip]. destruct (PyStr.is_space c) eqn:Hc; [exact IH | exact Hc].
Qed.

Lemma lstrip_rstrip_head (s : string) :
  match s with
  | EmptyString => True
  | String c _ => PyStr.is_space c = false
  end ->
  PyStr.lstrip (PyStr.rstrip s) = PyStr.rstrip s.
Proof.
  destruct s as [|c s]; [reflexivity|]. intros Hc.
  cbn [PyStr.rstrip].
  destruct (PyStr.rstrip s); [rewrite Hc|]; cbn [PyStr.lstrip];
    now rewrite Hc.
Qed.

(** [strip] leaves nothing to strip. *)
Lemma strip_trimmed (s : string) : trimmed (PyStr.strip s).
Proof.
  unfold trimmed, PyStr.strip.
  rewrite (lstrip_rstrip_head _ (lstrip_head s)).
  apply rstrip_rstrip.
Qed.

End Strip.

(** ** Enumeration of the list view *)

Section Enumeration.

Variable w : World.

Lemma card_name_trimmed card s :
  wp (card_name w card)
     (if_returns (fun r _ => forall name, r = Some name -> trimmed name)) s.
Proof.
  unfold card_name. apply wp_bind_if_returns. intros [|h rest] s1.
  - apply wp_ret. simpl. discriminate.
  - apply wp_bind_if_returns. intros [t|] s2.
    + apply wp_ret. simpl. intros name E. inversion E. apply strip_trimmed.
    + now apply wp_raise.
Qed.

Lemma collect_all_enumerated cards :
  forall acc s,
    Forall enumerated acc ->
    wp (collect_all w cards acc)
       (if_returns (fun r _ =>
          Forall enumerated r
          /\ length r <= length acc + length cards)) s.
Proof.
  induction cards as [|card rest IH]; intros acc s Hacc; cbn [collect_all].
  - apply wp_ret. simpl. split; [exact Hacc | lia].
  - eapply wp_bind_with; [apply card_name_trimmed|].
    intros [name|] s1 Ht.
    + eapply wp_mono.
      { apply IH. destruct (is_project_name name) eqn:Hn; [|exact Hacc].
        apply Forall_app. split; [exact Hacc|].
        constructor; [|constructor]. split; [exact Hn | now apply Ht]. }
      intros [r| |] s2; simpl; try tauto. intros [H1 H2].
      split; [exact H1|].
      destruct (is_project_name name); [rewrite length_app in H2|];
        simpl in *; lia.
    + eapply wp_mono; [apply IH, Hacc|].
      intros [r| |] s2; simpl; try tauto. intros [H1 H2].
      split; [exact H1 | lia].
Qed.

Lemma collect_top6_enumerated cards :
  forall acc s,
    Forall enumerated acc -> length acc < 6 ->
    wp (collect_top6 w cards acc)
       (if_returns (fun r _ => Forall enumerated r /\ length r <= 6)) s.
Proof.
  induction cards as [|card rest IH]; intros acc s Hacc Hlen;
    cbn [collect_top6].
  - apply wp_ret. simpl. split; [exact Hacc | lia].
  - eapply wp_bind_with; [apply card_name_trimmed|].
    intros [name|] s1 Ht; [|now apply IH].
    set (acc' := if is_project_name name then (acc ++ [name])%list else acc).
    assert (Hacc' : Forall enumerated acc').
    { unfold acc'. destruct (is_project_name name) eqn:Hn; [|exact Hacc].
      apply Forall_app. split; [exact Hacc|].
      constructor; [|constructor]. split; [exact Hn | now apply Ht]. }
    assert (Hlen' : length acc' <= 6).
    { unfold acc'. destruct (is_project_name name); [rewrite length_app|];
        simpl; lia. }
    destruct (Nat.eqb_spec (length acc') 6) as [E|E].
    + apply wp_ret. simpl. split; [exact Hacc' | lia].
    + apply IH; [exact Hacc' | lia].
Qed.

End Enumeration.

Lemma is_project_name_spec (name : string) :
  is_project_name name = true <-> name <> "" /\ PyStr.lower name <> "filter".
Proof.
  unfold is_project_name, PyStr.truthy.
  rewrite andb_true_iff, !negb_true_iff, !String.eqb_neq. reflexivity.
Qed.

(** X3.  Whatever the page does, the initial enumeration returns at most
    six names and the re-enumeration after a reload at most as many
    names as the list has cards; every name returned by either is
    trimmed, is not empty and is not "filter" in any letter case. *)
Theorem enumerated_names (w : World) (s : Sys) :
  (forall all_cards names s',
     collect_top6 w all_cards [] s = (Ok names, s') ->
     length names <= 6
     /\ Forall (fun name => trimmed name /\ name <> ""
                            /\ PyStr.lower name <> "filter") names)
  /\ (forall names s',
        reenumerate w s = (Ok names, s') ->
        (exists t, length names <= length (cards (w t)))
        /\ Forall (fun name => trimmed name /\ name <> ""
                               /\ PyStr.lower name <> "filter") names).
Proof.
  assert (Hen : forall names,
            Forall (enumerated) names ->
            Forall (fun name => trimmed name /\ name <> ""
                                /\ PyStr.lower name <> "filter") names).
  { intros names H. eapply Forall_impl; [|exact H].
    intros name [H1 H2]. apply is_project_name_spec in H1. tauto. }
  split.
  - intros all_cards names s' E.
    pose proof (collect_top6_enumerated w all_cards [] s
                  (Forall_nil _) ltac:(simpl; lia)) as H.
    destruct (wp_elim _ _ _ _ _ H E) as [H1 H2].
    split; [exact H2 | now apply Hen].
  - intros names s' E.
    assert (H : wp (reenumerate w)
                  (if_returns (fun r _ =>
                     Forall enumerated r
                     /\ exists t, length r <= length (cards (w t)))) s).
    { unfold reenumerate.
      apply wp_bind_if_returns. intros _ s1.
      apply wp_bind, wp_await.
      destruct (fault (w (tick s1))); [exact I|].
      eapply wp_mono;
        [apply (collect_all_enumerated w (cards (w (tick s1))) []);
         constructor|].
      intros [r| |] s2; simpl; try tauto. intros [H1 H2].
      split; [exact H1|]. exists (tick s1). exact H2. }
    destruct (wp_elim _ _ _ _ _ H E) as [H1 H2].
    split; [exact H2 | now apply Hen].
Qed.

Lemma enumerated_names_witness :
  exists names s',
    collect_top6 (still acme_page) (cards acme_page) [] fresh = (Ok names, s')
    /\ length names <= 6
    /\ Forall (fun name => trimmed name /\ name <> ""
                           /\ PyStr.lower name <> "filter") names.
Proof.
  do 2 eexists. split; [vm_compute; reflexivity|].
  eapply (proj1 (enumerated_names (still acme_page) fresh)
            (cards acme_page)).
  vm_compute. reflexivity.
Defined.

Section PureEnumeration.

Variable w : World.
Hypothesis w_quiet : quiet w.

Lemma card_name_quiet card s :
  titled card ->
  wp (card_name w card)
     (returns (fun r _ =>
        r = match h5s card with
            | Some t :: _ => Some (PyStr.strip t)
            | _ => None
            end)) s.
Proof.
  unfold titled, card_name. intros Ht.
  apply wp_bind, wp_await_quiet; [apply w_quiet|].
  destruct (h5s card) as [|[t|] rest]; [now apply wp_ret | | contradiction].
  apply wp_bind, wp_await_quiet; [apply w_quiet|]. now apply wp_ret.
Qed.

Lemma collect_all_quiet cards :
  Forall titled cards ->
  forall acc s,
    wp (collect_all w cards acc)
       (returns (fun r _ => r = (acc ++ list_names cards)%list)) s.
Proof.
  induction 1 as [|card rest Hc Hrest IH]; intros acc s; cbn [collect_all].
  - apply wp_ret. simpl. now rewrite app_nil_r.
  - apply wp_bind. eapply wp_mono; [apply card_name_quiet, Hc|].
    intros [r| |] s1; simpl; try tauto. intros ->.
    unfold list_names. cbn [flat_map]. unfold listed_name at 1.
    destruct (h5s card) as [|[t|] rest']; simpl; try apply IH.
    destruct (is_project_name (PyStr.strip t)).
    + eapply wp_mono; [apply IH|].
      intros [r| |] s2; simpl; try tauto. intros ->.
      now rewrite <- app_assoc.
    + apply IH.
Qed.

Lemma collect_top6_quiet cards :
  Forall titled cards ->
  forall acc s,
    length acc < 6 ->
    wp (collect_top6 w cards acc)
       (returns (fun r _ => r = firstn 6 (acc ++ list_names cards))) s.
Proof.
  induction 1 as [|card rest Hc Hrest IH]; intros acc s Hlen;
    cbn [collect_top6].
  - apply wp_ret. cbn [returns list_names flat_map].
    rewrite app_nil_r, firstn_all2; [reflexivity | lia].
  - apply wp_bind. eapply wp_mono; [apply card_name_quiet, Hc|].
    intros [r| |] s1; cbn [returns]; try tauto. intros ->.
    unfold list_names. cbn [flat_map]. unfold listed_name at 1.
    destruct (h5s card) as [|[t|] rest']; cbn [app]; try now apply IH.
    destruct (is_project_name (PyStr.strip t)).
    + destruct (Nat.eqb_spec (length (acc ++ [PyStr.strip t])) 6) as [E|E].
      * apply wp_ret. cbn [returns].
        change (PyStr.strip t :: flat_map listed_name rest)
          with ([PyStr.strip t] ++ flat_map listed_name rest)%list.
        rewrite app_assoc, firstn_app, E, Nat.sub_diag, firstn_O, app_nil_r.
        symmetry. apply firstn_all2. lia.
      * eapply wp_mono.
        { apply IH. rewrite length_app in *. simpl in *. lia. }
        intros [r| |] s2; cbn [returns]; try tauto. intros ->.
        now rewrite <- app_assoc.
    + destruct (Nat.eqb_spec (length acc) 6) as [E|E]; [lia|].
      now apply IH.
Qed.

End PureEnumeration.

(** X4.  On a page that raises no error and whose cards have a string
    as the text of their first heading, the re-enumeration returns, in
    DOM order, the trimmed first heading of every card that has one,
    leaving out the empty ones and "Filter" in any letter case; the
    initial enumeration returns the first six of these names. *)
Theorem enumeration_in_dom_order (w : World) (s : Sys) :
  quiet w ->
  (forall t, Forall titled (cards (w t))) ->
  (exists t s', reenumerate w s = (Ok (list_names (cards (w t))), s'))
  /\ (forall all_cards,
        Forall titled all_cards ->
        exists s',
          collect_top6 w all_cards [] s
          = (Ok (firstn 6 (list_names all_cards)), s')).
Proof.
  intros Hq Ht. split.
  - assert (H : wp (reenumerate w)
                  (returns (fun r _ =>
                     exists t, r = list_names (cards (w t)))) s).
    { unfold reenumerate, goto_project_list, page_op.
      apply wp_bind.
      do 2 (apply wp_bind, wp_await_quiet; [apply Hq|]).
      apply wp_await_quiet; [apply Hq|].
      apply wp_bind, wp_await_quiet; [apply Hq|].
      eapply wp_mono; [apply (collect_all_quiet w Hq), Ht|].
      intros [r| |] s1; simpl; try tauto. intros ->. eauto. }
    destruct (wp_returns _ _ _ H) as [r [s' [E [t ->]]]].
    now exists t, s'.
  - intros all_cards Hall.
    destruct (wp_returns _ _ _
                (collect_top6_quiet w Hq all_cards Hall [] s
                   ltac:(simpl; lia)))
      as [r [s' [E ->]]].
    now exists s'.
Qed.

Lemma enumeration_in_dom_order_witness :
  exists s',
    collect_top6 (still acme_page) (cards acme_page) [] fresh
    = (Ok ["Alpha Residency"; "Beta Towers"; "Gamma Heights"], s').
Proof.
  refine (proj2 (enumeration_in_dom_order (still acme_page) fresh _ _)
            (cards acme_page) _).
  - intros t. reflexivity.
  - intros t. repeat constructor.
  - repeat constructor.
Defined.

(** ** The candidate list and the cursor *)

Section Candidates.

Variable w : World.

Lemma extend_project_names_appends st s :
  wp (extend_project_names w st)
     (if_returns (fun r _ =>
        forall names, r = Some names ->
          exists more, names = (project_names st ++ more)%list)) s.
Proof.
  unfold extend_project_names.
  destruct (length (project_names st) <=? project_names_index st)%nat.
  - apply wp_bind_if_returns. intros new s1.
    destruct (length new <=? project_names_index st)%nat.
    + apply wp_bind_if_returns. intros _ s2. apply wp_ret. simpl. discriminate.
    + apply wp_ret. simpl. intros names E. inversion E; subst.
      now exists (skipn (project_names_index st) new).
  - apply wp_ret. simpl. intros names E. inversion E; subst.
    exists []. now rewrite app_nil_r.
Qed.

Lemma loop_body_appends st s :
  wp (loop_body w st)
     (if_returns (fun c _ =>
        match c with
        | Break st' => st' = st
        | Continue st' =>
            (exists more,
               project_names st' = (project_names st ++ more)%list)
            /\ project_names_index st < project_names_index st'
        end)) s.
Proof.
  unfold loop_body.
  eapply wp_bind_with; [apply extend_project_names_appends|].
  intros [names|] s1 Hn; [|now apply wp_ret].
  pose proof (Hn names eq_refl) as Hmore.
  destruct (nth_error names (project_names_index st)) as [name|];
    [|now apply wp_raise].
  do 5 (apply wp_bind_if_returns; intros).
  eapply wp_bind_with; [apply scan_cards_step|].
  intros [[found index] data] s' [_ Hi].
  apply wp_bind_if_returns. intros _ s''.
  apply wp_ret. simpl. split; [exact Hmore|].
  destruct Hi as [->|[-> _]]; lia.
Qed.

Lemma main_loop_appends passes :
  forall st s,
    wp (main_loop w passes st)
       (if_returns (fun r _ =>
          (exists more,
             project_names (snd r) = (project_names st ++ more)%list)
          /\ project_names_index st <= project_names_index (snd r))) s.
Proof.
  induction passes as [|passes IH]; intros st s; cbn [main_loop];
    destruct (length (project_data st) <? target_count)%nat;
    try (apply wp_ret; simpl; split; [exists []; now rewrite app_nil_r | lia]).
  eapply wp_bind_with; [apply loop_body_appends|].
  intros [st'|st'] s1 Hc.
  - destruct Hc as [[more Hm] Hi].
    eapply wp_mono; [apply IH|].
    intros [r| |] s2; simpl; try tauto. intros [[more' Hm'] Hi'].
    split; [|lia].
    exists (more ++ more')%list. now rewrite Hm', Hm, <- app_assoc.
  - subst st'. apply wp_ret. simpl.
    split; [exists []; now rewrite app_nil_r | lia].
Qed.

End Candidates.

(** X5.  The list of candidate names is append-only and the cursor never
    moves back: whatever the page does, the names known at any later
    head of the loop, or at its exit, are the earlier names followed by
    the names added, and the cursor is where it was or further. *)
Theorem candidates_append_only (w : World) (passes : nat) (st : Loop)
    (s : Sys) (status : status) (st' : Loop) (s' : Sys) :
  main_loop w passes st s = (Ok (status, st'), s') ->
  (exists more, project_names st' = (project_names st ++ more)%list)
  /\ project_names_index st <= project_names_index st'.
Proof.
  intros E. exact (wp_elim _ _ _ _ _ (main_loop_appends w passes st s) E).
Qed.

Lemma candidates_append_only_witness :
  exists st' s',
    main_loop (still acme_page) 4 (start ["Alpha Residency"; "Beta Towers"])
      fresh = (Ok (Exited, st'), s')
    /\ (exists more,
          project_names st'
          = (["Alpha Residency"; "Beta Towers"] ++ more)%list)
    /\ 0 <= project_names_index st'.
Proof.
  do 2 eexists. split; [vm_compute; reflexivity|].
  eapply (candidates_append_only (still acme_page) 4
            (start ["Alpha Residency"; "Beta Towers"]) fresh Exited).
  vm_compute. reflexivity.
Defined.

(** ** The loop ends *)

Section Termination.

Variable w : World.
Variable K : nat.
Hypothesis few_cards : forall t, length (cards (w t)) <= K.

Lemma reenumerate_few s :
  wp (reenumerate w) (if_returns (fun r _ => length r <= K)) s.
Proof.
  unfold reenumerate. apply wp_bind_if_returns. intros _ s1.
  apply wp_bind, wp_await. destruct (fault (w (tick s1))); [exact I|].
  eapply wp_mono;
    [apply (collect_all_enumerated w (cards (w (tick s1))) []); constructor|].
  intros [r| |] s2; simpl; try tauto. intros [_ H].
  pose proof (few_cards (tick s1)). lia.
Qed.

Lemma extend_project_names_few st s :
  length (project_names st) <= K ->
  wp (extend_project_names w st)
     (if_returns (fun r _ =>
        forall names, r = Some names ->
          length names <= K /\ project_names_index st < K)) s.
Proof.
  intros HK. unfold extend_project_names.
  destruct (Nat.leb_spec (length (project_names st)) (project_names_index st))
    as [Hle|Hlt].
  - eapply wp_bind_with; [apply reenumerate_few|]. intros new s1 Hnew.
    cbv beta in Hnew.
    destruct (Nat.leb_spec (length new) (project_names_index st)) as [Hn|Hn].
    + apply wp_bind_if_returns. intros _ s2. apply wp_ret. simpl. discriminate.
    + apply wp_ret. simpl. intros names E. inversion E; subst.
      rewrite length_app, length_skipn. lia.
  - apply wp_ret. simpl. intros names E. inversion E; subst. lia.
Qed.

Lemma loop_body_few st s :
  length (project_names st) <= K ->
  wp (loop_body w st)
     (if_returns (fun c _ =>
        match c with
        | Break _ => True
        | Continue st' =>
            length (project_names st') <= K
            /\ project_names_index st < K
            /\ project_names_index st < project_names_index st'
        end)) s.
Proof.
  intros HK. unfold loop_body.
  eapply wp_bind_with; [apply extend_project_names_few, HK|].
  intros [names|] s1 Hn; [|now apply wp_ret].
  destruct (Hn names eq_refl) as [H1 H2].
  destruct (nth_error names (project_names_index st)) as [name|];
    [|now apply wp_raise].
  do 5 (apply wp_bind_if_returns; intros).
  eapply wp_bind_with; [apply scan_cards_step|].
  intros [[found index] data] s' [_ Hi].
  apply wp_bind_if_returns. intros _ s''.
  apply wp_ret. simpl. repeat split; [exact H1 | exact H2 |].
  destruct Hi as [->|[-> _]]; lia.
Qed.

Lemma main_loop_few passes :
  forall st s,
    length (project_names st) <= K ->
    K <= project_names_index st + passes ->
    wp (main_loop w (S passes) st)
       (fun r _ => forall st', r <> Ok (Running, st')) s.
Proof.
  induction passes as [|passes IH]; intros st s HK Hp;
    cbn [main_loop];
    (destruct (length (project_data st) <? target_count)%nat;
     [|apply wp_ret; intros st' E; discriminate]);
    apply wp_bind;
    (eapply wp_mono; [apply loop_body_few, HK|]);
    (intros [[st1|st1]|e|] s1; simpl;
     try (intros _; apply wp_ret; intros st' E; discriminate);
     try (intros _ st' E; discriminate));
    intros [H1 [H2 H3]].
  - exfalso. lia.
  - apply IH; [exact H1 | lia].
Qed.

End Termination.

(** X6.  When the list view never shows more than [K] cards and at most
    [K] names are known, the loop is over within [K + 1] passes: it has
    left through its condition or its [break], or an error has ended the
    run. *)
Theorem loop_ends_within (w : World) (K passes : nat) (names : list string)
    (s : Sys) :
  (forall t, length (cards (w t)) <= K) ->
  length names <= K ->
  K < passes ->
  forall st' s', main_loop w passes (start names) s <> (Ok (Running, st'), s').
Proof.
  intros Hcards Hnames Hp st' s' E.
  destruct passes as [|passes]; [lia|].
  pose proof (main_loop_few w K Hcards passes (start names) s Hnames
                ltac:(simpl; lia)) as H.
  exact (wp_elim _ _ _ _ _ H E st' eq_refl).
Qed.

Lemma loop_ends_within_witness :
  match fst (main_loop (still acme_page) 5
               (start ["Alpha Residency"; "Beta Towers"]) fresh) with
  | Ok (Running, _) => False
  | _ => True
  end.
Proof.
  destruct (main_loop (still acme_page) 5
              (start ["Alpha Residency"; "Beta Towers"]) fresh)
    as [[[[|] st']|e|] s'] eqn:E; cbn [fst]; try exact I.
  refine (loop_ends_within (still acme_page) 4 5
            ["Alpha Residency"; "Beta Towers"] fresh _ _ _ st' s' E).
  - intros t. simpl. lia.
  - simpl. lia.
  - lia.
Defined.

(** X7.  When the cursor is past the end of the known names and the
    reloaded list has more names than the cursor, but not enough to
    bring the list up to the cursor, the pass raises [IndexError] at
    line 121.  The cursor is in this position after a navigation
    failure on the last known candidate. *)
Theorem cursor_past_end_raises (w : World) (st : Loop) (s : Sys)
    (project_names_new : list string) (s1 : Sys) :
  length (project_names st) < project_names_index st ->
  reenumerate w s = (Ok project_names_new, s1) ->
  project_names_index st < length project_names_new ->
  length (project_names st) + length project_names_new
  <= 2 * project_names_index st ->
  loop_body w st s = (Raise IndexError, s1).
Proof.
  intros Hpast Hre Hnew Hshort.
  assert (Hend : (length (project_names st) <=? project_names_index st)%nat
                 = true) by (apply Nat.leb_le; lia).
  assert (Hmore : (length project_names_new <=? project_names_index st)%nat
                  = false) by (apply Nat.leb_gt; lia).
  unfold loop_body, extend_project_names, bind at 1 2.
  rewrite Hend, Hre, Hmore. cbn [ret].
  assert (Hnth : nth_error
                   (project_names st
                    ++ skipn (project_names_index st) project_names_new)
                   (project_names_index st) = None).
  { apply nth_error_None. rewrite length_app, length_skipn. lia. }
  rewrite Hnth. reflexivity.
Qed.

Lemma cursor_past_end_raises_witness :
  exists s1,
    loop_body (still acme_page)
      {| project_names := ["Alpha Residency"];
         project_names_index := 2;
         project_data := [] |} fresh
    = (Raise IndexError, s1).
Proof.
  exists (snd (reenumerate (still acme_page) fresh)).
  apply (cursor_past_end_raises (still acme_page) _ fresh
           ["Alpha Residency"; "Beta Towers"; "Gamma Heights"]).
  - simpl. lia.
  - vm_compute. reflexivity.
  - simpl. lia.
  - simpl. lia.
Defined.

(** ** Errors that go no further *)

(** X8.  Whatever the page does, dismissing the modal never raises: it
    returns after one to four page operations, an error of any of them
    swallowed, and without a sleep. *)
Theorem dismiss_modal_never_raises (w : World) (settle : N) (s : Sys) :
  fst (dismiss_modal w settle s) = Ok tt
  /\ tick s < tick (snd (dismiss_modal w settle s)) <= tick s + 4
  /\ sleeps (snd (dismiss_modal w settle s)) = sleeps s.
Proof.
  unfold dismiss_modal, try_except, bind, wait_for_timeout, page_op, await,
    bind, ret.
  cbn [tick set_clock].
  destruct (fault (w (tick s))); cbn [fst snd tick sleeps set_clock];
    [repeat split; lia|].
  destruct (ok_button_visible (w (tick s)));
    cbn [fst snd tick sleeps set_clock]; [|repeat split; lia].
  destruct (fault (w (S (tick s)))); cbn [fst snd tick sleeps set_clock];
    [repeat split; lia|].
  destruct (fault (w (S (S (tick s))))); cbn [fst snd tick sleeps set_clock];
    [repeat split; lia|].
  destruct (fault (w (S (S (S (tick s))))));
    cbn [fst snd tick sleeps set_clock]; repeat split; lia.
Qed.

(** [guarded_run] in terms of the launch, the run and the closing of the
    browser. *)
Lemma guarded_run_cases (w : World) (disk : Disk) (passes : nat) (s : Sys) :
  guarded_run w disk passes s
  = match fault (w (tick s)) with
    | Some e => (Ok tt, snd (logging (MainError e) (next w s)))
    | None =>
        match run w disk passes (next w s) with
        | (Ok _, s1) => page_op w s1
        | (Raise e, s1) => page_op w (snd (logging (MainError e) s1))
        | (OutOfFuel, s1) => (OutOfFuel, s1)
        end
    end.
Proof.
  unfold guarded_run, bind, try_except, page_op. unfold await at 1 2.
  fold (next w s).
  destruct (fault (w (tick s))); [reflexivity|].
  destruct (run w disk passes (next w s)) as [[[]|e|] s1]; reflexivity.
Qed.

(** [main] in terms of the entering of [async_playwright()], the guarded
    run and the leaving. *)
Lemma main_cases (w : World) (disk : Disk) (passes : nat) (s : Sys) :
  main w disk passes s
  = match fault (w (tick s)) with
    | Some e => (Raise e, next w s)
    | None => with_exit (guarded_run w disk passes) (page_op w) (next w s)
    end.
Proof.
  unfold main, bind, page_op. unfold await at 1. fold (next w s).
  destruct (fault (w (tick s))); reflexivity.
Qed.

Lemma page_op_cases (w : World) (s : Sys) :
  page_op w s
  = match fault (w (tick s)) with
    | Some e => (Raise e, next w s)
    | None => (Ok tt, next w s)
    end.
Proof. unfold page_op, await. fold (next w s). reflexivity. Qed.



(** ** The output file *)

Section KeepsCsv.

Lemma keeps_ret {A} (a : A) : keeps_csv (ret a).
Proof. intros s. reflexivity. Qed.

Lemma keeps_raise {A} (e : exn) : keeps_csv (@raise A e).
Proof. intros s. reflexivity. Qed.

Lemma keeps_out_of_fuel {A} : keeps_csv (@out_of_fuel A).
Proof. intros s. reflexivity. Qed.

Lemma keeps_bind {A B} (m : M A) (k : A -> M B) :
  keeps_csv m -> (forall a, keeps_csv (k a)) -> keeps_csv (bind m k).
Proof.
  intros Hm Hk s. unfold bind. specialize (Hm s).
  destruct (m s) as [[a|e|] s1]; simpl in *; [|exact Hm|exact Hm].
  now rewrite Hk.
Qed.

Lemma keeps_try_except {A} (m : M A) (h : exn -> M A) :
  keeps_csv m -> (forall e, keeps_csv (h e)) -> keeps_csv (try_except m h).
Proof.
  intros Hm Hh s. unfold try_except. specialize (Hm s).
  destruct (m s) as [[a|e|] s1]; simpl in *; [exact Hm| |exact Hm].
  now rewrite Hh.
Qed.

Lemma keeps_await w {A} (op : Dom -> result A) : keeps_csv (await w op).
Proof. intros s. unfold await. now destruct (fault (w (tick s))). Qed.

Lemma keeps_logging e : keeps_csv (logging e).
Proof. intros s. reflexivity. Qed.

Lemma keeps_write_scratch f : keeps_csv (write_scratch f).
Proof. intros s. reflexivity. Qed.

Lemma keeps_time_time : keeps_csv time_time.
Proof. intros s. reflexivity. Qed.

Lemma keeps_asyncio_sleep ms : keeps_csv (asyncio_sleep ms).
Proof. intros s. reflexivity. Qed.

End KeepsCsv.

Create HintDb keeps.
#[local] Hint Resolve keeps_ret keeps_raise keeps_out_of_fuel keeps_await
  keeps_logging keeps_write_scratch keeps_time_time keeps_asyncio_sleep
  : keeps.

(** Follow the structure of a computation down to its page operations. *)
Ltac keeps :=
  repeat (intros;
          first
            [ solve [auto with keeps]
            | apply keeps_bind
            | apply keeps_try_except
            | match goal with
              | |- keeps_csv (match ?x with _ => _ end) => destruct x
              | |- keeps_csv (let _ := _ in _) => cbv zeta
              | |- keeps_csv (fun s => (Ok tt, set_clock _ _ _ s)) =>
                  intros ?; reflexivity
              end ]).

Section KeepsCsvScraper.

Variable w : World.

Lemma keeps_wait_while_placeholder fuel loc start_time :
  keeps_csv (wait_while_placeholder w fuel loc start_time).
Proof.
  induction fuel as [|fuel IH]; cbn [wait_while_placeholder];
    unfold text_content; keeps.
Qed.

Lemma keeps_resolve_field loc : keeps_csv (resolve_field w loc).
Proof.
  unfold resolve_field, wait_for_visible, text_content.
  pose proof (keeps_wait_while_placeholder poll_fuel loc). keeps.
Qed.

Lemma keeps_poll_sources fuel first second start_time :
  keeps_csv (poll_sources w fuel first second start_time).
Proof.
  induction fuel as [|fuel IH]; cbn [poll_sources];
    unfold probe, both_absent, count, first_text_content; keeps.
Qed.

Lemma keeps_poll_gst fuel start_time :
  keeps_csv (poll_gst w fuel start_time).
Proof.
  induction fuel as [|fuel IH]; cbn [poll_gst];
    unfold count, first_text_content; keeps.
Qed.

Lemma keeps_dismiss_modal settle : keeps_csv (dismiss_modal w settle).
Proof. unfold dismiss_modal, wait_for_timeout, page_op. keeps. Qed.

Lemma keeps_scrape_detail index : keeps_csv (scrape_detail w index).
Proof.
  unfold scrape_detail, resolve_sources, resolve_gst, inner_html,
    wait_for_spinner_hidden, wait_for_visible, page_op.
  pose proof keeps_resolve_field. pose proof keeps_poll_sources.
  pose proof keeps_poll_gst. keeps.
Qed.

Lemma keeps_validate_and_append name details p a data :
  keeps_csv (validate_and_append name details p a data).
Proof. unfold validate_and_append. keeps. Qed.

Lemma keeps_card_name card : keeps_csv (card_name w card).
Proof. unfold card_name. keeps. Qed.

Lemma keeps_collect_all cards : forall acc, keeps_csv (collect_all w cards acc).
Proof.
  induction cards as [|card rest IH]; intros acc; cbn [collect_all];
    pose proof keeps_card_name; keeps.
Qed.

Lemma keeps_collect_top6 cards :
  forall acc, keeps_csv (collect_top6 w cards acc).
Proof.
  induction cards as [|card rest IH]; intros acc; cbn [collect_top6];
    pose proof keeps_card_name; keeps.
Qed.

Lemma keeps_scan_cards cards name :
  forall index data, keeps_csv (scan_cards w cards name index data).
Proof.
  induction cards as [|card rest IH]; intros index data; cbn [scan_cards];
    pose proof keeps_card_name; pose proof keeps_dismiss_modal;
    pose proof keeps_scrape_detail; pose proof keeps_validate_and_append;
    unfold page_op; keeps.
Qed.

Lemma keeps_loop_body st : keeps_csv (loop_body w st).
Proof.
  unfold loop_body, extend_project_names, reenumerate, goto_project_list,
    page_op.
  pose proof keeps_collect_all. pose proof keeps_dismiss_modal.
  pose proof keeps_scan_cards. keeps.
Qed.

Lemma keeps_main_loop passes : forall st, keeps_csv (main_loop w passes st).
Proof.
  induction passes as [|passes IH]; intros st; cbn [main_loop];
    pose proof keeps_loop_body; keeps.
Qed.

End KeepsCsvScraper.

(** X10.  The orchestration loop never touches the output file: whatever
    the page does and however the loop ends, projects_output.csv is after
    the loop what it was before. *)
Theorem main_loop_keeps_csv (w : World) (passes : nat) (st : Loop) (s : Sys) :
  csv_file (snd (main_loop w passes st s)) = csv_file s.
Proof. apply keeps_main_loop. Qed.

(** ** The records in full *)

Lemma tidy_accumulated (r : pydict) : tidy r -> accumulated r.
Proof.
  intros [pn [rr [p [a [g [-> [Hp [_ [Ha _]]]]]]]]].
  now exists pn, rr, p, a, g.
Qed.

Section Tidy.

Variable w : World.

Lemma scrape_detail_tidy index s :
  wp (scrape_detail w index)
     (if_returns (fun r _ =>
        let '(details, promoter_name_text, address_text) := r in
        exists project_name rera gst,
          details = record_of project_name rera promoter_name_text
                      address_text gst
          /\ gst <> "" /\ PyStr.strip gst <> ""))
     s.
Proof.
  unfold scrape_detail.
  do 9 (apply wp_bind_if_returns; intros).
  eapply (wp_bind_with _ _ (fun g _ => is_nonblank (Some g) = true)).
  { unfold resolve_gst. apply wp_bind_if_returns. intros t s'.
    apply poll_gst_text. }
  intros g s' Hg. apply wp_ret. simpl.
  simpl in Hg. apply andb_true_iff in Hg. destruct Hg as [H1 H2].
  do 3 eexists. split; [reflexivity|].
  split; [now apply truthy_nonempty|].
  apply negb_true_iff, String.eqb_neq in H2. exact H2.
Qed.

Lemma validate_and_append_tidy name project_name rera promoter address gst
    data s :
  gst <> "" -> PyStr.strip gst <> "" ->
  wp (validate_and_append name
        (record_of project_name rera promoter address gst)
        promoter address data)
     (returns (fun data' _ =>
        data' = data
        \/ exists r, data' = (data ++ [r])%list /\ tidy r))
     s.
Proof.
  intros Hg1 Hg2. unfold validate_and_append.
  set (p := if PyStr.truthy promoter then PyStr.strip promoter else "--").
  set (a := if PyStr.truthy address then PyStr.strip address else "--").
  assert (Hp : trimmed p).
  { unfold p. destruct (PyStr.truthy promoter);
      [apply strip_trimmed | reflexivity]. }
  assert (Ha : trimmed a).
  { unfold a. destruct (PyStr.truthy address);
      [apply strip_trimmed | reflexivity]. }
  destruct (PyStr.truthy p) eqn:Tp; destruct (PyStr.truthy a) eqn:Ta;
    simpl; try (apply wp_bind, wp_logging; intros; apply wp_ret; now left).
  apply wp_bind, wp_logging; intros; apply wp_ret. simpl. right.
  exists (record_of project_name rera p a gst). split; [reflexivity|].
  exists project_name, rera, p, a, gst.
  repeat split; try assumption; now apply truthy_nonempty.
Qed.

Lemma scan_cards_tidy cards name index data s :
  wp (scan_cards w cards name index data)
     (if_returns (fun r _ =>
        snd r = data
        \/ exists rec, snd r = (data ++ [rec])%list /\ tidy rec))
     s.
Proof.
  revert s. induction cards as [|card rest IH]; intros s; cbn [scan_cards].
  - apply wp_ret. now left.
  - apply wp_bind_if_returns. intros [name'|] s1; [|apply IH].
    destruct (name' =? name); [|apply IH].
    apply wp_bind_if_returns. intros btns s2.
    destruct (btns =? 0)%nat; [apply IH|].
    apply wp_bind_if_returns. intros [e|] s3.
    + apply wp_bind_if_returns. intros _ s4. apply wp_ret. now left.
    + apply wp_bind_if_returns. intros _ s4.
      eapply wp_bind_with; [apply scrape_detail_tidy|].
      intros [[details p] a] s5 [pn [rr [g [-> [Hg1 Hg2]]]]].
      eapply wp_bind_with.
      { eapply wp_mono; [apply validate_and_append_tidy; assumption|].
        intros [d'| |] s6; simpl; try tauto. intros H; exact H. }
      intros data' s6 Hd. apply wp_ret. exact Hd.
Qed.

Lemma loop_body_tidy st s :
  Forall tidy (project_data st) ->
  wp (loop_body w st)
     (if_returns (fun c _ =>
        match c with
        | Break st' => st' = st
        | Continue st' => Forall tidy (project_data st')
        end))
     s.
Proof.
  intros Hall. unfold loop_body.
  apply wp_bind_if_returns. intros [names|] s1; [|now apply wp_ret].
  destruct (nth_error names (project_names_index st)) as [name|];
    [|now apply wp_raise].
  do 5 (apply wp_bind_if_returns; intros).
  eapply wp_bind_with; [apply scan_cards_tidy|].
  intros [[found index] data] s' Hd.
  apply wp_bind_if_returns. intros _ s''.
  apply wp_ret. simpl in *.
  destruct Hd as [->|[rec [-> Hrec]]]; [exact Hall|].
  apply Forall_app. split; [exact Hall | now constructor].
Qed.

Lemma main_loop_tidy passes :
  forall st s,
    Forall tidy (project_data st) ->
    wp (main_loop w passes st)
       (if_returns (fun r _ => Forall tidy (project_data (snd r)))) s.
Proof.
  induction passes as [|passes IH]; intros st s Hall; cbn [main_loop];
    destruct (length (project_data st) <? target_count)%nat;
    try (apply wp_ret; exact Hall).
  eapply wp_bind_with; [apply loop_body_tidy, Hall|].
  intros [st'|st'] s1 Hc.
  - now apply IH.
  - subst st'. apply wp_ret. exact Hall.
Qed.

End Tidy.

(** X11.  Every record accumulated by the loop has exactly the five
    columns, in the order of the output table; its Promoter Name and
    Address carry no white space at either end, and its GST No. is a
    text that is not blank. *)
Theorem accumulated_records_tidy (w : World) (passes : nat)
    (names : list string) (s : Sys) (status : status) (st : Loop) (s' : Sys) :
  main_loop w passes (start names) s = (Ok (status, st), s') ->
  Forall (fun r =>
            keys r = columns
            /\ exists promoter_name address gst_no,
                 dict_get "Promoter Name" r = Some (Some promoter_name)
                 /\ trimmed promoter_name
                 /\ dict_get "Address of the Promoter" r = Some (Some address)
                 /\ trimmed address
                 /\ dict_get "GST No." r = Some (Some gst_no)
                 /\ gst_no <> "" /\ PyStr.strip gst_no <> "")
         (project_data st).
Proof.
  intros E.
  pose proof (wp_elim _ _ _ _ _
                (main_loop_tidy w passes (start names) s (Forall_nil _)) E)
    as H.
  eapply Forall_impl; [|exact H].
  intros r [pn [rr [p [a [g [-> [_ [Hp [_ [Ha [Hg1 Hg2]]]]]]]]]]].
  split; [reflexivity|].
  exists p, a, g. repeat split; assumption.
Qed.

Lemma accumulated_records_tidy_witness :
  exists st s',
    main_loop (still acme_page) 4 (start ["Alpha Residency"; "Beta Towers"])
      fresh = (Ok (Exited, st), s')
    /\ Forall (fun r =>
            keys r = columns
            /\ exists promoter_name address gst_no,
                 dict_get "Promoter Name" r = Some (Some promoter_name)
                 /\ trimmed promoter_name
                 /\ dict_get "Address of the Promoter" r = Some (Some address)
                 /\ trimmed address
                 /\ dict_get "GST No." r = Some (Some gst_no)
                 /\ gst_no <> "" /\ PyStr.strip gst_no <> "")
         (project_data st).
Proof.
  do 2 eexists. split; [vm_compute; reflexivity|].
  eapply (accumulated_records_tidy (still acme_page) 4
            ["Alpha Residency"; "Beta Towers"] fresh Exited).
  vm_compute. reflexivity.
Defined.

(** ** The output step and the file system *)

Section OutputStep.

Variable disk : Disk.

Lemma wp_set_csv t (Q : result unit -> Sys -> Prop) s :
  Q (Ok tt) (snd (set_csv t s)) -> wp (set_csv t) Q s.
Proof. exact (fun H => H). Qed.

Lemma wp_writerow n row rows (Q : result unit -> Sys -> Prop) s :
  write_row disk n = None ->
  csv_file s = Some rows ->
  Q (Ok tt) (snd (set_csv (Some (rows ++ [row])%list) s)) ->
  wp (writerow disk n row) Q s.
Proof.
  intros W E H. unfold wp, writerow, bind, get_csv. rewrite W, E. exact H.
Qed.

Lemma wp_writerow_fails n row e (Q : result unit -> Sys -> Prop) s :
  write_row disk n = Some e -> Q (Raise e) s -> wp (writerow disk n row) Q s.
Proof. intros W H. unfold wp, writerow. rewrite W. exact H. Qed.

(** [writerows] from line [n] on: every record is written, or the write
    of a line fails and the lines before it stay. *)
Lemma writerows_outcome (data : list pydict) :
  Forall accumulated data ->
  forall n rows s,
    csv_file s = Some rows ->
    wp (writerows disk n columns data)
       (fun r s' =>
          log s' = log s /\ scratch s' = scratch s
          /\ match r with
             | Ok _ =>
                 csv_file s' = Some (rows ++ map row_of data)%list
                 /\ forall i, i < length data -> write_row disk (n + i) = None
             | Raise e =>
                 exists m,
                   m < length data
                   /\ write_row disk (n + m) = Some e
                   /\ (forall i, i < m -> write_row disk (n + i) = None)
                   /\ csv_file s'
                      = Some (rows ++ firstn m (map row_of data))%list
             | OutOfFuel => False
             end) s.
Proof.
  induction 1 as [|r data Hr Hdata IH]; intros n rows s Hcsv.
  - apply wp_ret. cbn [map length]. rewrite app_nil_r.
    repeat split; [exact Hcsv | intros i Hi; lia].
  - destruct Hr as [pn [rr [p [a [g [-> _]]]]]].
    change (writerows disk n columns (record_of pn rr p a g :: data))
      with (writerow disk n (row_of (record_of pn rr p a g)) ;;
            writerows disk (S n) columns data).
    apply wp_bind.
    destruct (write_row disk n) as [e|] eqn:W.
    + apply (wp_writerow_fails _ _ e); [exact W|].
      repeat split. exists 0. cbn [length firstn].
      rewrite Nat.add_0_r, app_nil_r.
      repeat split; [lia | exact W | intros i Hi; lia | exact Hcsv].
    + apply (wp_writerow _ _ rows); [exact W | exact Hcsv|].
      eapply wp_mono; [apply IH; reflexivity|].
      intros res s'. cbn [set_csv snd log scratch].
      intros [L [S' H]]. split; [exact L|]. split; [exact S'|].
      destruct res as [[]|e|]; [| |exact H].
      * destruct H as [E F]. split.
        -- rewrite E, <- app_assoc. reflexivity.
        -- intros [|i] Hi; [now rewrite Nat.add_0_r|].
           rewrite <- Nat.add_succ_comm. apply F. cbn [length] in Hi. lia.
      * destruct H as [m [Hm [We [F E]]]]. exists (S m).
        cbn [length firstn map]. repeat split.
        -- lia.
        -- now rewrite <- Nat.add_succ_comm.
        -- intros [|i] Hi; [now rewrite Nat.add_0_r|].
           rewrite <- Nat.add_succ_comm. apply F. lia.
        -- rewrite E, <- app_assoc. reflexivity.
Qed.

(** The output step on the records of the loop. *)
Lemma write_results_outcome (data : list pydict) (s : Sys) :
  Forall accumulated data ->
  wp (write_results disk data)
     (fun r s' =>
        scratch s' = scratch s
        /\ match data with
           | [] =>
               r = Ok tt /\ csv_file s' = csv_file s
               /\ log s' = (log s ++ [NoDataToWrite])%list
           | _ :: _ =>
               match r with
               | Ok _ =>
                   open_csv disk = None
                   /\ (forall i, i <= length data -> write_row disk i = None)
                   /\ csv_file s' = Some (table data)
                   /\ log s' = (log s ++ [ResultsWritten])%list
               | Raise e =>
                   log s' = log s
                   /\ ((open_csv disk = Some e /\ csv_file s' = csv_file s)
                       \/ (open_csv disk = None
                           /\ exists m,
                                m <= length data
                                /\ write_row disk m = Some e
                                /\ (forall i, i < m -> write_row disk i = None)
                                /\ csv_file s' = Some (firstn m (table data))))
               | OutOfFuel => False
               end
           end) s.
Proof.
  intros H. destruct data as [|r data].
  - unfold wp, write_results, logging. cbn [fst snd scratch csv_file log].
    repeat split.
  - assert (Hk : keys r = columns).
    { inversion H as [|? ? [pn [rr [p [a [g [-> _]]]]]] _]. reflexivity. }
    unfold write_results. rewrite Hk.
    destruct (open_csv disk) as [e|] eqn:O.
    { apply wp_raise. repeat split. left. now split. }
    apply wp_bind, wp_set_csv.
    apply wp_bind.
    destruct (write_row disk 0) as [e|] eqn:W0.
    { apply (wp_writerow_fails _ _ e); [exact W0|].
      cbn [set_csv snd log scratch csv_file]. repeat split.
      right. split; [reflexivity|]. exists 0.
      repeat split; [lia | exact W0 | intros i Hi; lia]. }
    apply (wp_writerow _ _ []); [exact W0 | reflexivity|].
    apply wp_bind.
    eapply wp_mono; [apply (writerows_outcome (r :: data) H 1); reflexivity|].
    intros res s'. cbn [set_csv snd log scratch app].
    intros [L [S' R]].
    destruct res as [[]|e|]; [| |contradiction].
    + destruct R as [E F].
      unfold wp, logging. cbn [fst snd scratch csv_file log].
      split; [exact S'|]. repeat split.
      * intros [|i] Hi; [exact W0 | apply (F i); lia].
      * exact E.
      * rewrite L. reflexivity.
    + destruct R as [m [Hm [We [F E]]]].
      split; [exact S'|]. split; [exact L|].
      right. split; [reflexivity|]. exists (S m).
      repeat split.
      * lia.
      * exact We.
      * intros [|i] Hi; [exact W0 | apply (F i); lia].
      * exact E.
Qed.

Lemma same_file_refl (f : scratch_file) : same_file f f = true.
Proof.
  destruct f; cbn [same_file];
    [reflexivity | apply Nat.eqb_refl | apply String.eqb_refl].
Qed.

Lemma no_output_event_refl s s' : log s' = log s -> no_output_event s s'.
Proof. intros L. exists []. now rewrite app_nil_r. Qed.

Lemma no_output_event_trans s1 s2 s3 :
  no_output_event s1 s2 -> no_output_event s2 s3 -> no_output_event s1 s3.
Proof.
  intros [ev1 [L1 F1]] [ev2 [L2 F2]]. exists (ev1 ++ ev2)%list.
  split; [rewrite L2, L1, app_assoc; reflexivity|].
  apply Forall_app. now split.
Qed.

(** One turn of the loop of the clean-up: the file is deleted, with
    every entry of its name, or it is reported and stays. *)
Lemma remove_file_outcome (f : scratch_file) (s : Sys) :
  wp (try_except (os_remove disk f ;; logging (Deleted f))
        (fun _ => logging (CouldNotDelete f)))
     (returns (fun _ s' =>
        csv_file s' = csv_file s
        /\ no_output_event s s'
        /\ (forall g, In g (scratch s') ->
               In g (scratch s) /\ (g = f -> remove disk g <> None))
        /\ (forall g, In g (scratch s) ->
               (same_file f g = true -> remove disk f <> None) ->
               In g (scratch s'))))
     s.
Proof.
  unfold wp, try_except, bind, os_remove, logging, unlink, raise.
  destruct (remove disk f) as [e|] eqn:R;
    cbn [fst snd returns csv_file log scratch].
  - split; [reflexivity|]. split; [|split].
    + exists [CouldNotDelete f]. split; [reflexivity|].
      constructor; [|constructor]. intros [E|E]; discriminate.
    + intros g Hg. split; [exact Hg|]. intros ->. congruence.
    + intros g Hg _. exact Hg.
  - split; [reflexivity|]. split; [|split].
    + exists [Deleted f]. split; [reflexivity|].
      constructor; [|constructor]. intros [E|E]; discriminate.
    + intros g Hg. apply filter_In in Hg. destruct Hg as [Hg Hs].
      split; [exact Hg|]. intros ->.
      rewrite same_file_refl in Hs. discriminate.
    + intros g Hg Hsame. apply filter_In. split; [exact Hg|].
      destruct (same_file f g); [now elim Hsame | reflexivity].
Qed.

(** The loop of the clean-up never raises; it leaves the output file as
    it is and logs no event of the output step; the files it was given
    that are still there are files whose deletion failed, and a file
    stays when the deletion of every entry of its name fails. *)
Lemma remove_files_outcome (files : list scratch_file) :
  forall s,
    wp (remove_files disk files)
       (returns (fun _ s' =>
          csv_file s' = csv_file s
          /\ no_output_event s s'
          /\ (forall g, In g (scratch s') ->
                 In g (scratch s)
                 /\ (In g files -> remove disk g <> None))
          /\ (forall g, In g (scratch s) ->
                 (forall h, In h files -> same_file h g = true ->
                            remove disk h <> None) ->
                 In g (scratch s'))))
       s.
Proof.
  induction files as [|f rest IH]; intros s.
  - apply wp_ret. cbn [returns]. split; [reflexivity|].
    split; [now apply no_output_event_refl|]. split.
    + intros g Hg. split; [exact Hg | intros []].
    + intros g Hg _. exact Hg.
  - cbn [remove_files]. apply wp_bind.
    eapply wp_mono; [apply remove_file_outcome|].
    intros [[]| |] s1; cbn [returns]; try tauto.
    intros [C1 [L1 [G1 K1]]].
    eapply wp_mono; [apply IH|].
    intros [[]| |] s2; cbn [returns]; try tauto.
    intros [C2 [L2 [G2 K2]]].
    split; [congruence|].
    split; [exact (no_output_event_trans _ _ _ L1 L2)|]. split.
    + intros g Hg. destruct (G2 g Hg) as [Hg1 Hr].
      destruct (G1 g Hg1) as [Hg0 Hf0].
      split; [exact Hg0|]. intros [E|Hin]; [now apply Hf0 | now apply Hr].
    + intros g Hg Hall. apply K2.
      * apply K1; [exact Hg|]. intros Hs. apply (Hall f); [now left | exact Hs].
      * intros h Hh. apply Hall. now right.
Qed.

(** The clean-up: an error of the listing goes on; otherwise every .html
    or .png file that is still in the directory is one whose deletion
    failed, and a file stays when the deletion of every entry of its
    name fails. *)
Lemma remove_scratch_outcome (s : Sys) :
  wp (remove_scratch disk)
     (fun r s' =>
        csv_file s' = csv_file s
        /\ no_output_event s s'
        /\ match r with
           | Ok _ =>
               listdir disk = None
               /\ (forall g, In g (scratch s') ->
                      In g (scratch s) /\ remove disk g <> None)
               /\ (forall g, In g (scratch s) ->
                      (forall h, In h (scratch s) -> same_file h g = true ->
                                 remove disk h <> None) ->
                      In g (scratch s'))
           | Raise e => listdir disk = Some e /\ scratch s' = scratch s
           | OutOfFuel => False
           end) s.
Proof.
  unfold remove_scratch.
  destruct (listdir disk) as [e|] eqn:L.
  - apply wp_raise. split; [reflexivity|].
    split; [now apply no_output_event_refl | now split].
  - apply wp_bind. unfold wp at 1, list_scratch. cbn [fst snd].
    eapply wp_mono; [apply remove_files_outcome|].
    intros [[]| |] s'; cbn [returns]; try tauto.
    intros [C [P [G K]]]. split; [exact C|]. split; [exact P|].
    split; [reflexivity|]. split; [|exact K].
    intros g Hg. destruct (G g Hg) as [H1 H2]. split; [exact H1|].
    now apply H2.
Qed.

End OutputStep.

(** ** What precedes the output step *)

Section BeforeOutput.

Lemma precedes_output_same s s' :
  csv_file s' = csv_file s -> log s' = log s -> scratch s' = scratch s ->
  precedes_output s s'.
Proof.
  intros C L S. split; [exact C|].
  split; [now apply no_output_event_refl|].
  exists []. now rewrite app_nil_r.
Qed.

Lemma precedes_output_refl s : precedes_output s s.
Proof. now apply precedes_output_same. Qed.

Lemma precedes_output_trans s1 s2 s3 :
  precedes_output s1 s2 -> precedes_output s2 s3 -> precedes_output s1 s3.
Proof.
  intros [C1 [L1 [f1 S1]]] [C2 [L2 [f2 S2]]].
  split; [congruence|].
  split; [exact (no_output_event_trans _ _ _ L1 L2)|].
  exists (f1 ++ f2)%list. rewrite S2, S1, app_assoc. reflexivity.
Qed.

Lemma before_ret {A} (a : A) : before_output (ret a).
Proof. intros s. apply precedes_output_refl. Qed.

Lemma before_raise {A} (e : exn) : before_output (@raise A e).
Proof. intros s. apply precedes_output_refl. Qed.

Lemma before_out_of_fuel {A} : before_output (@out_of_fuel A).
Proof. intros s. apply precedes_output_refl. Qed.

Lemma before_bind {A B} (m : M A) (k : A -> M B) :
  before_output m -> (forall a, before_output (k a)) ->
  before_output (bind m k).
Proof.
  intros Hm Hk s. unfold bind. specialize (Hm s).
  destruct (m s) as [[a|e|] s1]; cbn [snd] in *; [|exact Hm|exact Hm].
  exact (precedes_output_trans _ _ _ Hm (Hk a s1)).
Qed.

Lemma before_try_except {A} (m : M A) (h : exn -> M A) :
  before_output m -> (forall e, before_output (h e)) ->
  before_output (try_except m h).
Proof.
  intros Hm Hh s. unfold try_except. specialize (Hm s).
  destruct (m s) as [[a|e|] s1]; cbn [snd] in *; [exact Hm| |exact Hm].
  exact (precedes_output_trans _ _ _ Hm (Hh e s1)).
Qed.

Lemma before_await w {A} (op : Dom -> result A) : before_output (await w op).
Proof.
  intros s. unfold await.
  destruct (fault (w (tick s))); now apply precedes_output_same.
Qed.

Lemma before_logging e : ~ output_event e -> before_output (logging e).
Proof.
  intros He s. split; [reflexivity|]. split.
  - exists [e]. split; [reflexivity|]. now constructor.
  - exists []. cbn. now rewrite app_nil_r.
Qed.

Lemma before_write_scratch f : before_output (write_scratch f).
Proof.
  intros s. split; [reflexivity|].
  split; [now apply no_output_event_refl | now exists [f]].
Qed.

Lemma before_time_time : before_output time_time.
Proof. intros s. apply precedes_output_refl. Qed.

Lemma before_asyncio_sleep ms : before_output (asyncio_sleep ms).
Proof. intros s. now apply precedes_output_same. Qed.

End BeforeOutput.

Create HintDb before.
#[local] Hint Resolve before_ret before_raise before_out_of_fuel before_await
  before_write_scratch before_time_time before_asyncio_sleep
  : before.
#[local] Hint Extern 1 (before_output (logging _)) =>
  apply before_logging; intros [?|?]; discriminate : before.

(** Follow the structure of a computation down to its page operations
    and its log entries. *)
Ltac before :=
  repeat (intros;
          first
            [ solve [auto with before]
            | apply before_bind
            | apply before_try_except
            | match goal with
              | |- before_output (match ?x with _ => _ end) => destruct x
              | |- before_output (let _ := _ in _) => cbv zeta
              | |- before_output (fun s => (Ok tt, set_clock _ _ _ s)) =>
                  intros ?; now apply precedes_output_same
              end ]).

Section BeforeOutputScraper.

Variable w : World.

Lemma before_wait_while_placeholder fuel loc start_time :
  before_output (wait_while_placeholder w fuel loc start_time).
Proof.
  induction fuel as [|fuel IH]; cbn [wait_while_placeholder];
    unfold text_content; before.
Qed.

Lemma before_resolve_field loc : before_output (resolve_field w loc).
Proof.
  unfold resolve_field, wait_for_visible, text_content.
  pose proof (before_wait_while_placeholder poll_fuel loc). before.
Qed.

Lemma before_poll_sources fuel first second start_time :
  before_output (poll_sources w fuel first second start_time).
Proof.
  induction fuel as [|fuel IH]; cbn [poll_sources];
    unfold probe, both_absent, count, first_text_content; before.
Qed.

Lemma before_poll_gst fuel start_time :
  before_output (poll_gst w fuel start_time).
Proof.
  induction fuel as [|fuel IH]; cbn [poll_gst];
    unfold count, first_text_content; before.
Qed.

Lemma before_dismiss_modal settle : before_output (dismiss_modal w settle).
Proof. unfold dismiss_modal, wait_for_timeout, page_op. before. Qed.

Lemma before_scrape_detail index : before_output (scrape_detail w index).
Proof.
  unfold scrape_detail, resolve_sources, resolve_gst, inner_html,
    wait_for_spinner_hidden, wait_for_visible, page_op.
  pose proof before_resolve_field. pose proof before_poll_sources.
  pose proof before_poll_gst. before.
Qed.

Lemma before_validate_and_append name details p a data :
  before_output (validate_and_append name details p a data).
Proof. unfold validate_and_append. before. Qed.

Lemma before_card_name card : before_output (card_name w card).
Proof. unfold card_name. before. Qed.

Lemma before_collect_all cards :
  forall acc, before_output (collect_all w cards acc).
Proof.
  induction cards as [|card rest IH]; intros acc; cbn [collect_all];
    pose proof before_card_name; before.
Qed.

Lemma before_collect_top6 cards :
  forall acc, before_output (collect_top6 w cards acc).
Proof.
  induction cards as [|card rest IH]; intros acc; cbn [collect_top6];
    pose proof before_card_name; before.
Qed.

Lemma before_scan_cards cards name :
  forall index data, before_output (scan_cards w cards name index data).
Proof.
  induction cards as [|card rest IH]; intros index data; cbn [scan_cards];
    pose proof before_card_name; pose proof before_dismiss_modal;
    pose proof before_scrape_detail; pose proof before_validate_and_append;
    unfold page_op; before.
Qed.

Lemma before_loop_body st : before_output (loop_body w st).
Proof.
  unfold loop_body, extend_project_names, reenumerate, goto_project_list,
    page_op.
  pose proof before_collect_all. pose proof before_dismiss_modal.
  pose proof before_scan_cards. before.
Qed.

Lemma before_main_loop passes :
  forall st, before_output (main_loop w passes st).
Proof.
  induction passes as [|passes IH]; intros st; cbn [main_loop];
    pose proof before_loop_body; before.
Qed.

End BeforeOutputScraper.

Lemma wp_bind_before {A B} (m : M A) (k : A -> M B)
    (Q : result B -> Sys -> Prop) (s0 s : Sys) :
  before_output m ->
  precedes_output s0 s ->
  (forall e s1, precedes_output s0 s1 -> Q (Raise e) s1) ->
  (forall s1, precedes_output s0 s1 -> Q OutOfFuel s1) ->
  (forall a s1, precedes_output s0 s1 -> wp (k a) Q s1) ->
  wp (bind m k) Q s.
Proof.
  intros Hm Hs He Hf Hk. apply wp_bind. unfold wp at 1.
  pose proof (precedes_output_trans _ _ _ Hs (Hm s)) as H.
  destruct (m s) as [[a|e|] s1]; cbn [fst snd] in *; auto.
Qed.

Lemma run_cases (w : World) (disk : Disk) (passes : nat) (s : Sys) :
  wp (run w disk passes)
     (fun r s' => run_before_output s r s'
                  \/ run_reaches_output w disk passes s r s') s.
Proof.
  assert (Ha : forall (r : result unit) s1,
             r <> Ok tt -> precedes_output s s1 ->
             run_before_output s r s1
             \/ run_reaches_output w disk passes s r s1)
    by (intros r s1 Hr Hp; left; now split).
  unfold run.
  apply (wp_bind_before _ _ _ s);
    [ unfold page_op; apply before_await | apply precedes_output_refl
    | intros; apply Ha; [discriminate | assumption]
    | intros; apply Ha; [discriminate | assumption] |].
  intros _ s1 H1.
  apply (wp_bind_before _ _ _ s);
    [ unfold goto_project_list, page_op; before | exact H1
    | intros; apply Ha; [discriminate | assumption]
    | intros; apply Ha; [discriminate | assumption] |].
  intros _ s2 H2.
  apply (wp_bind_before _ _ _ s);
    [ apply before_dismiss_modal | exact H2
    | intros; apply Ha; [discriminate | assumption]
    | intros; apply Ha; [discriminate | assumption] |].
  intros _ s3 H3.
  apply (wp_bind_before _ _ _ s);
    [ unfold page_op; apply before_await | exact H3
    | intros; apply Ha; [discriminate | assumption]
    | intros; apply Ha; [discriminate | assumption] |].
  intros _ s4 H4.
  apply (wp_bind_before _ _ _ s);
    [ apply before_write_scratch | exact H4
    | intros; apply Ha; [discriminate | assumption]
    | intros; apply Ha; [discriminate | assumption] |].
  intros _ s5 H5.
  apply (wp_bind_before _ _ _ s);
    [ unfold page_op; apply before_await | exact H5
    | intros; apply Ha; [discriminate | assumption]
    | intros; apply Ha; [discriminate | assumption] |].
  intros _ s6 H6.
  apply (wp_bind_before _ _ _ s);
    [ apply before_await | exact H6
    | intros; apply Ha; [discriminate | assumption]
    | intros; apply Ha; [discriminate | assumption] |].
  intros all_cards s7 H7.
  apply (wp_bind_before _ _ _ s);
    [ apply before_collect_top6 | exact H7
    | intros; apply Ha; [discriminate | assumption]
    | intros; apply Ha; [discriminate | assumption] |].
  intros names s8 H8.
  apply wp_bind. fold (start names).
  pose proof (before_main_loop w passes (start names) s8) as Hb.
  pose proof (precedes_output_trans _ _ _ H8 Hb) as H9.
  unfold wp at 1.
  destruct (main_loop w passes (start names) s8) as [[[st final]|e|] s9] eqn:E;
    cbn [fst snd] in *;
    [| apply Ha; [discriminate | assumption]
     | apply Ha; [discriminate | assumption] ].
  destruct st.
  - right. exists names, s8, final, s9.
    split; [exact E|]. split; [exact H9|].
    unfold wp. now destruct ((write_results disk (project_data final) ;;
                              remove_scratch disk) s9).
  - apply Ha; [discriminate | assumption].
Qed.

(** With a file system on which the output and the listing do not fail,
    a run that reaches the output step returns. *)
Lemma output_returns (disk : Disk) (data : list pydict) (s : Sys) :
  Forall accumulated data ->
  open_csv disk = None -> (forall n, write_row disk n = None) ->
  listdir disk = None ->
  exists s', (write_results disk data ;; remove_scratch disk) s = (Ok tt, s').
Proof.
  intros Hacc O W L.
  pose proof (write_results_outcome disk data s Hacc) as Hw.
  unfold wp in Hw. unfold bind.
  destruct (write_results disk data s) as [[[]|e|] s1]; cbn [fst snd] in Hw.
  - pose proof (remove_scratch_outcome disk s1) as Hr. unfold wp in Hr.
    destruct (remove_scratch disk s1) as [[[]|e|] s2]; cbn [fst snd] in Hr.
    + now exists s2.
    + destruct Hr as [_ [_ [Hr _]]]. congruence.
    + now destruct Hr as [_ [_ Hr]].
  - exfalso. destruct Hw as [_ Hw]. destruct data; [now destruct Hw|].
    destruct Hw as [_ [[Hw _]|[_ [m [_ [Hw _]]]]]]; congruence.
  - exfalso. destruct Hw as [_ Hw]. destruct data; [now destruct Hw | exact Hw].
Qed.




(** The records with which the loop is left. *)
Lemma main_loop_records (w : World) (passes : nat) (names : list string)
    (s0 : Sys) (st : Loop) (s1 : Sys) :
  main_loop w passes (start names) s0 = (Ok (Exited, st), s1) ->
  Forall accumulated (project_data st)
  /\ length (project_data st) <= 6
  /\ Forall tidy (project_data st).
Proof.
  intros E.
  destruct (main_loop_from_start w passes names s0 Exited st s1 E) as [Ha Hl].
  split; [exact Ha|]. split; [exact Hl|].
  exact (wp_elim _ _ _ _ _
           (main_loop_tidy w passes (start names) s0 (Forall_nil _)) E).
Qed.



(** When the write of the third line of the file fails, the run ends on
    that error with the header and the first row in the file, and the
    scratch files stay. *)
Example write_error_leaves_partial_file :
  fst (run (still acme_page) (full_at 2) 5 fresh) = Raise OSError
  /\ csv_file (snd (run (still acme_page) (full_at 2) 5 fresh))
     = Some [columns;
             ["Alpha Residency"; "RP/19/2024/01001"; "Acme Builders";
              "Plot 7, Bhubaneswar"; "--"]]
  /\ length (scratch (snd (run (still acme_page) (full_at 2) 5 fresh))) = 4.
Proof. vm_compute. repeat split. Qed.

(** A file that cannot be deleted is reported and stays; the others are
    deleted and the run completes. *)
Example locked_file_is_left :
  fst (run (still acme_page) locked_screenshot 5 fresh) = Ok tt
  /\ scratch (snd (run (still acme_page) locked_screenshot 5 fresh))
     = [Screenshot]
  /\ In (CouldNotDelete Screenshot)
        (log (snd (run (still acme_page) locked_screenshot 5 fresh))).
Proof.
  split; [vm_compute; reflexivity|].
  split; [vm_compute; reflexivity|].
  vm_compute. auto 10.
Qed.

(** ** One pass of the loop *)

(** X13.  A pass that ends normally either breaks, leaving the loop
    state as it was, or continues with at most one more record and the
    cursor one further; the cursor is two further, and no record is
    added, only when a navigation error has just been logged. *)
Theorem pass_outcome (w : World) (st : Loop) (s : Sys) (c : control)
    (s' : Sys) :
  loop_body w st s = (Ok c, s') ->
  match c with
  | Break st' => st' = st
  | Continue st' =>
      (project_data st' = project_data st
       \/ exists r, project_data st' = (project_data st ++ [r])%list)
      /\ (project_names_index st' = project_names_index st + 1
          \/ (project_names_index st' = project_names_index st + 2
              /\ project_data st' = project_data st
              /\ exists l name e,
                   log s' = (l ++ [NavigationError name e])%list))
  end.
Proof.
  intros E. pose proof (wp_elim _ _ _ _ _ (loop_body_step w st s) E) as H.
  destruct c as [st'|st']; [|exact H].
  destruct H as [[Hd|[r [Hd _]]] Hi]; (split; [|exact Hi]).
  - now left.
  - right. now exists r.
Qed.

Lemma pass_outcome_witness :
  exists c s',
    loop_body (still acme_page)
      (start ["Alpha Residency"; "Beta Towers"]) fresh = (Ok c, s')
    /\ match c with
       | Break st' => st' = start ["Alpha Residency"; "Beta Towers"]
       | Continue st' =>
           (project_data st' = []
            \/ exists r, project_data st' = ([] ++ [r])%list)
           /\ (project_names_index st' = 0 + 1
               \/ (project_names_index st' = 0 + 2
                   /\ project_data st' = []
                   /\ exists l name e,
                        log s' = (l ++ [NavigationError name e])%list))
       end.
Proof.
  exists (match fst (loop_body (still acme_page)
                       (start ["Alpha Residency"; "Beta Towers"]) fresh)
          with Ok c => c | _ => Break (start []) end).
  exists (snd (loop_body (still acme_page)
                 (start ["Alpha Residency"; "Beta Towers"]) fresh)).
  split; [vm_compute; reflexivity|].
  apply (pass_outcome (still acme_page)
           (start ["Alpha Residency"; "Beta Towers"]) fresh).
  vm_compute. reflexivity.
Defined.

Section NotFound.

Variable w : World.
Hypothesis w_quiet : quiet w.

Lemma card_name_title card s :
  titled card ->
  wp (card_name w card)
     (returns (fun r s' => r = card_title card /\ log s' = log s)) s.
Proof.
  unfold titled, card_name, card_title. intros Ht.
  apply wp_bind, wp_await_quiet; [apply w_quiet|].
  destruct (h5s card) as [|[t|] rest]; [now apply wp_ret | | contradiction].
  apply wp_bind, wp_await_quiet; [apply w_quiet|]. now apply wp_ret.
Qed.

Lemma scan_cards_passes_over cards name index data :
  Forall titled cards ->
  Forall (passed_over name) cards ->
  forall s,
    wp (scan_cards w cards name index data)
       (returns (fun r s' => r = (false, index, data) /\ log s' = log s)) s.
Proof.
  induction 1 as [|card rest Ht Hrest IH]; intros Hp s;
    cbn [scan_cards].
  - now apply wp_ret.
  - inversion Hp as [|? ? Hcard Hp']; subst.
    apply wp_bind. eapply wp_mono; [apply card_name_title, Ht|].
    intros [r| |] s1; cbn [returns]; try tauto. intros [-> Hl].
    assert (Hnext : wp (scan_cards w rest name index data)
                      (returns (fun r s' =>
                         r = (false, index, data) /\ log s' = log s)) s1).
    { eapply wp_mono; [apply (IH Hp')|].
      intros [r| |] s2; cbn [returns]; try tauto.
      intros [-> Hl2]. split; [reflexivity | congruence]. }
    destruct (card_title card) as [title|] eqn:Et; [|exact Hnext].
    destruct (String.eqb_spec title name) as [->|Hne]; [|exact Hnext].
    destruct Hcard as [Hcard|Hbtn]; [congruence|].
    apply wp_bind, wp_await_quiet; [apply w_quiet|].
    rewrite Hbtn. cbn [Nat.eqb].
    eapply wp_mono; [apply (IH Hp')|].
    intros [r| |] s2; cbn [returns]; try tauto.
    intros [-> Hl2]. split; [reflexivity|].
    rewrite Hl2. cbn [next set_clock log]. exact Hl.
Qed.

End NotFound.

(** X14.  On a page that raises no error, a scan of cards none of which
    has both the name of the candidate and a "View Details" button ends
    with [found] false: it opens no detail view, appends no record,
    leaves the cursor to the last line of the pass and logs nothing. *)
Theorem candidate_not_found (w : World) (cards : list Card) (name : string)
    (index : nat) (data : list pydict) (s : Sys) :
  quiet w ->
  Forall titled cards ->
  Forall (passed_over name) cards ->
  exists s',
    scan_cards w cards name index data s = (Ok (false, index, data), s')
    /\ log s' = log s.
Proof.
  intros Hq Ht Hp.
  destruct (wp_returns _ _ _
              (scan_cards_passes_over w Hq cards name index data Ht Hp s))
    as [r [s' [E [-> Hl]]]].
  now exists s'.
Qed.

Lemma candidate_not_found_witness :
  exists s',
    scan_cards (still beta_gone) (cards beta_gone) "Beta Towers" 1 [] fresh
    = (Ok (false, 1, []), s')
    /\ log s' = log fresh.
Proof.
  apply candidate_not_found.
  - intros t. reflexivity.
  - repeat constructor.
  - repeat (apply Forall_cons;
            [left; intros H; vm_compute in H; discriminate H|]).
    apply Forall_nil.
Defined.

(** X15.  A candidate whose promoter text and address text are both not
    blank is accumulated: the record is appended last, with both texts
    trimmed, and the extraction is logged.  The placeholder "--" counts
    as a text here, so a candidate with no promoter data is accumulated
    with "--" in both columns. *)
Theorem nonblank_candidate_appended (name : string) (details : pydict)
    (promoter address : string) (data : list pydict) (s : Sys) :
  PyStr.strip promoter <> "" -> PyStr.strip address <> "" ->
  exists s',
    validate_and_append name details promoter address data s
    = (Ok (data
           ++ [dict_set "Address of the Promoter"
                 (Some (PyStr.strip address))
                 (dict_set "Promoter Name" (Some (PyStr.strip promoter))
                    details)])%list, s')
    /\ log s' = (log s ++ [ExtractedData name])%list.
Proof.
  intros Hp Ha. unfold validate_and_append.
  assert (Tp : PyStr.truthy promoter = true).
  { destruct promoter; [now elim Hp | reflexivity]. }
  assert (Ta : PyStr.truthy address = true).
  { destruct address; [now elim Ha | reflexivity]. }
  rewrite Tp, Ta.
  assert (Sp : PyStr.truthy (PyStr.strip promoter) = true).
  { unfold PyStr.truthy. apply negb_true_iff, String.eqb_neq, Hp. }
  assert (Sa : PyStr.truthy (PyStr.strip address) = true).
  { unfold PyStr.truthy. apply negb_true_iff, String.eqb_neq, Ha. }
  rewrite Sp, Sa. cbn [negb orb].
  eexists. split; reflexivity.
Qed.

Lemma nonblank_candidate_appended_witness :
  exists s',
    validate_and_append "Alpha Residency"
      (record_of (Some "Alpha Residency") None "--" "--" "--")
      "--" "--" [] fresh
    = (Ok [record_of (Some "Alpha Residency") None "--" "--" "--"], s')
    /\ log s' = [ExtractedData "Alpha Residency"].
Proof.
  apply (nonblank_candidate_appended "Alpha Residency"
           (record_of (Some "Alpha Residency") None "--" "--" "--")
           "--" "--" [] fresh); discriminate.
Defined.

(** ** A source that stays on the placeholder *)

Section Pending.

Variable w : World.
Hypothesis w_quiet : quiet w.
Variables first second : locator.
Hypothesis first_steady : steady w first.
Hypothesis second_steady : steady w second.
Hypothesis one_present :
  (forall t, first (w t) <> []) \/ (forall t, second (w t) <> []).
Hypothesis no_value : forall t, winner first second (w t) = None.

Lemma probe_none (loc : locator) s :
  steady w loc ->
  (forall t, source_value (loc (w t)) = None) ->
  wp (probe w loc) (returns (fun r s' => r = None /\ (now s <= now s')%N)) s.
Proof.
  intros Hst Hnone.
  eapply wp_mono; [apply (probe_returns w w_quiet loc s Hst)|].
  intros [[v|]| |] s'; cbn [returns]; try tauto.
  intros [_ H]. destruct (H v eq_refl) as [t Ht].
  rewrite Hnone in Ht. discriminate.
Qed.

Lemma both_absent_false s :
  wp (both_absent w first second)
     (returns (fun r s' => r = false /\ (now s <= now s')%N)) s.
Proof.
  unfold both_absent, count.
  apply wp_bind, wp_await_quiet; [apply w_quiet|].
  pose proof (now_next w s) as Hn.
  destruct (first (w (tick s))) as [|x l] eqn:E1; cbn [length Nat.eqb].
  - apply wp_bind, wp_await_quiet; [apply w_quiet|].
    pose proof (now_next w (next w s)) as Hn'.
    apply wp_ret. cbn [returns]. split; [|lia].
    destruct one_present as [H|H]; [now elim (H (tick s))|].
    specialize (H (tick (next w s))).
    destruct (second (w (tick (next w s)))); [now elim H | reflexivity].
  - apply wp_ret. cbn [returns]. now split.
Qed.

Lemma poll_sources_pending start_time fuel :
  forall s,
    (start_time <= now s)%N ->
    (40000 < now s - start_time + 500 * N.of_nat fuel)%N ->
    wp (poll_sources w (S fuel) first second start_time)
       (returns (fun r s' => r = "--" /\ (40000 < now s' - start_time)%N)) s.
Proof.
  assert (N1 : forall t, source_value (first (w t)) = None)
    by (intros t; apply (winner_none _ _ _ (no_value t))).
  assert (N2 : forall t, source_value (second (w t)) = None)
    by (intros t; apply (winner_none _ _ _ (no_value t))).
  induction fuel as [|fuel IH]; intros s Hs Hf; cbn [poll_sources];
    (apply wp_bind; eapply wp_mono;
     [apply (probe_none first s first_steady N1)|]);
    (intros [r1| |] s1; cbn [returns]; try tauto; intros [-> H1]);
    (apply wp_bind; eapply wp_mono;
     [apply (probe_none second s1 second_steady N2)|]);
    (intros [r2| |] s2; cbn [returns]; try tauto; intros [-> H2]);
    (apply wp_bind; eapply wp_mono; [apply (both_absent_false s2)|]);
    (intros [r3| |] s3; cbn [returns]; try tauto; intros [-> H3]);
    apply wp_bind, wp_time_time;
    (destruct (N.ltb_spec 40000 (now s3 - start_time)) as [Hlt|Hge];
     [apply wp_ret; cbn [returns]; now split|]).
  - exfalso. simpl in Hf. lia.
  - rewrite Nat2N.inj_succ in Hf.
    apply wp_bind, wp_asyncio_sleep.
    apply IH; cbn [set_clock now]; lia.
Qed.

End Pending.

(** X16.  On a page that raises no error, a two-source field of which a
    source is present throughout but no source ever has a value is
    polled until more than forty seconds have passed, and then resolves
    to "--". *)
Theorem pending_sources_wait (w : World) (first second : locator) (s : Sys) :
  quiet w -> steady w first -> steady w second ->
  (forall t, first (w t) <> []) \/ (forall t, second (w t) <> []) ->
  (forall t, winner first second (w t) = None) ->
  exists s',
    resolve_sources w first second s = (Ok "--", s')
    /\ (40000 < now s' - now s)%N.
Proof.
  intros Hq H1 H2 Hp Hn.
  assert (H : wp (resolve_sources w first second)
                (returns (fun r s' =>
                   r = "--" /\ (40000 < now s' - now s)%N)) s).
  { unfold resolve_sources. apply wp_bind, wp_time_time.
    apply (poll_sources_pending w Hq first second H1 H2 Hp Hn (now s) 199);
      [lia | cbn; lia]. }
  destruct (wp_returns _ _ _ H) as [r [s' [E [-> Ht]]]].
  now exists s'.
Qed.

Lemma pending_sources_wait_witness :
  exists s',
    resolve_sources (still company_pending) company_name_strong
      propietory_name_strong fresh = (Ok "--", s')
    /\ (40000 < now s' - now fresh)%N.
Proof.
  apply pending_sources_wait.
  - intros t. reflexivity.
  - right. intros t. discriminate.
  - left. intros t. reflexivity.
  - left. intros t. discriminate.
  - intros t. reflexivity.
Defined.

(** ** Why the loop is left *)

Section Exit.

Variable w : World.

Lemma extend_project_names_break st s :
  wp (extend_project_names w st)
     (if_returns (fun r s' =>
        r = None -> exists l, log s' = (l ++ [NoMoreProjects])%list)) s.
Proof.
  unfold extend_project_names.
  destruct (length (project_names st) <=? project_names_index st)%nat;
    [|apply wp_ret; cbn [if_returns]; discriminate].
  apply wp_bind_if_returns. intros new s1.
  destruct (length new <=? project_names_index st)%nat;
    [|apply wp_ret; cbn [if_returns]; discriminate].
  apply wp_bind, wp_logging. intros s2 Hl _ _ _ _.
  apply wp_ret. cbn [if_returns]. intros _. now exists (log s1).
Qed.

Lemma loop_body_break st s :
  wp (loop_body w st)
     (if_returns (fun c s' =>
        match c with
        | Break _ => exists l, log s' = (l ++ [NoMoreProjects])%list
        | Continue _ => True
        end)) s.
Proof.
  unfold loop_body.
  eapply wp_bind_with; [apply extend_project_names_break|].
  intros [names|] s1 Hn; [|apply wp_ret; cbn [if_returns]; now apply Hn].
  destruct (nth_error names (project_names_index st)) as [name|];
    [|now apply wp_raise].
  do 5 (apply wp_bind_if_returns; intros).
  apply wp_bind_if_returns. intros [[found index] data] s'.
  apply wp_bind_if_returns. intros _ s''.
  now apply wp_ret.
Qed.

Lemma main_loop_exit passes :
  forall st s,
    wp (main_loop w passes st)
       (if_returns (fun r s' =>
          fst r = Exited ->
          target_count <= length (project_data (snd r))
          \/ (length (project_data (snd r)) < target_count
              /\ exists l, log s' = (l ++ [NoMoreProjects])%list))) s.
Proof.
  induction passes as [|passes IH]; intros st s; cbn [main_loop];
    (destruct (Nat.ltb_spec (length (project_data st)) target_count)
       as [Hlt|Hge];
     [|apply wp_ret; cbn [if_returns fst snd]; intros _; now left]).
  - apply wp_ret. cbn [if_returns fst]. discriminate.
  - apply wp_bind.
    eapply wp_mono;
      [apply wp_conj; [apply loop_body_break | apply loop_body_step]|].
    intros [[st'|st']|e|] s1; cbn [if_returns]; try tauto.
    + intros _. apply IH.
    + intros [Hl ->]. apply wp_ret. cbn [if_returns fst snd]. intros _.
      right. now split.
Qed.

End Exit.

(** X17.  The loop is left for one of two reasons only: six records
    have been accumulated, or fewer have and the warning that no more
    projects were found has just been logged. *)
Theorem loop_exit_reasons (w : World) (passes : nat) (names : list string)
    (s : Sys) (st : Loop) (s' : Sys) :
  main_loop w passes (start names) s = (Ok (Exited, st), s') ->
  length (project_data st) = 6
  \/ (length (project_data st) < 6
      /\ exists l, log s' = (l ++ [NoMoreProjects])%list).
Proof.
  intros E.
  destruct (main_loop_from_start w passes names s Exited st s' E) as [_ Hlen].
  pose proof (wp_elim _ _ _ _ _ (main_loop_exit w passes (start names) s) E)
    as H.
  cbn [if_returns fst snd] in H. unfold target_count in *.
  destruct (H eq_refl) as [Hge|Hlt]; [left; lia | right; exact Hlt].
Qed.

Lemma loop_exit_reasons_witness :
  exists st s',
    main_loop (still acme_page) 4 (start ["Alpha Residency"; "Beta Towers"])
      fresh = (Ok (Exited, st), s')
    /\ (length (project_data st) = 6
        \/ (length (project_data st) < 6
            /\ exists l, log s' = (l ++ [NoMoreProjects])%list)).
Proof.
  exists (snd (match fst (main_loop (still acme_page) 4
                            (start ["Alpha Residency"; "Beta Towers"]) fresh)
               with Ok r => r | _ => (Running, start []) end)).
  exists (snd (main_loop (still acme_page) 4
                 (start ["Alpha Residency"; "Beta Towers"]) fresh)).
  split; [vm_compute; reflexivity|].
  apply (loop_exit_reasons (still acme_page) 4
           ["Alpha Residency"; "Beta Towers"] fresh).
  vm_compute. reflexivity.
Defined.
